(** * NeonSearch: the frontend store, the search bar, and the aggregation core

    A shallow embedding of
      - [frontend/src/store/videoStore.js] (the zustand store [useVideoStore]),
      - the copy of that store embedded at the end of [frontend/src/App.js],
      - the [SearchBar] and [App] components of [frontend/src/App.js]
        (submit handler, source-filter buttons) and what they, the
        [VideoGrid] and the [VideoCard] show,
    together with a model of the backend aggregation core (suggestion
    engine, source registry, result cache, fetch client, orchestrator),
    whose code is not part of the frontend sources and is modelled from
    its design document. *)

From Stdlib Require Import ZArith Bool Lia.
From stdpp Require Import base option list strings sorting gmap fin_maps.

Local Open Scope string_scope.
Local Open Scope Z_scope.
Local Set Warnings "-register-all".

(** ** JavaScript values

    The store holds plain JSON-like data, and the code relies on dynamic
    features of the language ([||], [?.], property access on a value that
    may be [null]).  Values are modelled as JSON trees plus [undefined].
    Numbers are the integer-valued ones (all that the store code
    produces: [1] and [40]); a string is a sequence of code units below
    256.  Values are data: none of them is a function. *)
Module JS.

Inductive value : Type :=
| VUndefined
| VNull
| VBool (b : bool)
| VNum (n : Z)
| VStr (s : string)
| VArr (items : list value)
| VObj (fields : list (string * value)).

(** Outcome of evaluating an expression: a value, or a thrown error. *)
Inductive completion (E A : Type) : Type :=
| Normal (a : A)
| Throw (e : E).
Arguments Normal {E A} a.
Arguments Throw {E A} e.

Definition bind {E A B} (c : completion E A) (k : A -> completion E B)
  : completion E B :=
  match c with
  | Normal a => k a
  | Throw e => Throw e
  end.

(** [ToBoolean]. *)
Definition truthy (v : value) : bool :=
  match v with
  | VUndefined | VNull => false
  | VBool b => b
  | VNum n => negb (n =? 0)
  | VStr s => negb (String.eqb s "")
  | VArr _ | VObj _ => true
  end.

(** [a || b] on already evaluated operands (the right operands in the
    store are literals or side-effect-free reads). *)
Definition or (a b : value) : value := if truthy a then a else b.

Definition nullish (v : value) : bool :=
  match v with
  | VUndefined | VNull => true
  | _ => false
  end.

Fixpoint assoc (p : string) (fields : list (string * value)) : value :=
  match fields with
  | [] => VUndefined
  | (k, v) :: rest => if String.eqb k p then v else assoc p rest
  end.

(** Reading property [p] of a value that is neither [null] nor
    [undefined].  The property names read by the store and the
    components ([results], [sources], [detail], [title], [name],
    [enabled], [driver_name], ...) are own properties of objects only;
    on a string, a number, a boolean or an array they are [undefined].
    ([length] is read with [len], below.) *)
Definition prop (v : value) (p : string) : value :=
  match v with
  | VObj fields => assoc p fields
  | _ => VUndefined
  end.

(** Does the value have an own property called [p]? *)
Definition has_own (p : string) (v : value) : bool :=
  match v with
  | VObj fields => existsb (fun kv => String.eqb (fst kv) p) fields
  | _ => false
  end.

(** Does the conversion of the value to a string, as in [`${v}`],
    return?  An object converts through its [toString]: the inherited
    one returns, but an own property of that name is data, cannot be
    called, and leaves the object without a conversion.  An array
    converts by joining the conversions of its items. *)
Fixpoint convertible (v : value) : bool :=
  match v with
  | VObj _ => negb (has_own "toString" v)
  | VArr items => forallb convertible items
  | _ => true
  end.

(** [v.length] for a value that is neither [null] nor [undefined]: the
    number of items of an array, of code units of a string, the
    property of that name of an object, [undefined] on a number and on
    a boolean. *)
Definition len (v : value) : value :=
  match v with
  | VArr items => VNum (Z.of_nat (length items))
  | VStr s => VNum (Z.of_nat (String.length s))
  | _ => prop v "length"
  end.

(** What [JSON.stringify] writes for a value inside an array or as a
    property: nothing for a property that is [undefined], [null] for an
    item that is [undefined].  The result is the value the receiver
    parses. *)
Fixpoint serialized (v : value) : value :=
  match v with
  | VArr items =>
      VArr (map (fun item => match item with
                             | VUndefined => VNull
                             | _ => serialized item
                             end) items)
  | VObj fields =>
      VObj ((fix properties (fields : list (string * value)) :=
               match fields with
               | [] => []
               | (k, VUndefined) :: rest => properties rest
               | (k, x) :: rest => (k, serialized x) :: properties rest
               end) fields)
  | _ => v
  end.

(** The wording of the errors the engine raises; it differs from one
    engine to another. *)
Class Engine : Type :=
  { cannot_read : value -> string -> string;   (* reading a property of null *)
    cannot_convert : value -> string;          (* no conversion to a string *)
    not_a_function : string -> string }.       (* calling what is not a function *)

Definition type_name (v : value) : string :=
  match v with
  | VNull => "null"
  | _ => "undefined"
  end.

(** The wording of one engine. *)
Definition V8 : Engine :=
  {| cannot_read := fun v p =>
       "Cannot read properties of " +:+ type_name v +:+ " (reading '" +:+ p +:+ "')";
     cannot_convert := fun _ => "Cannot convert object to primitive value";
     not_a_function := fun what => what +:+ " is not a function" |}.

Section engine.
Context {engine : Engine}.

(** [v.p]: throws on [null] and [undefined]. *)
Definition get {E} (type_error : string -> E) (v : value) (p : string)
  : completion E value :=
  if nullish v then Throw (type_error (cannot_read v p)) else Normal (prop v p).

(** The template literal [`... ${v1} ... ${v2} ...`]: the values are
    converted to strings from left to right, and the first one without
    a conversion throws.  (The string itself goes to the console.) *)
Fixpoint template {E} (type_error : string -> E) (values : list value)
  : completion E unit :=
  match values with
  | [] => Normal tt
  | v :: rest =>
      if convertible v then template type_error rest
      else Throw (type_error (cannot_convert v))
  end.

End engine.

(** [v?.p]. *)
Definition opt_get (v : value) (p : string) : value :=
  if nullish v then VUndefined else prop v p.

(** White space and line terminators stripped by [String.prototype.trim],
    among the code units below 256: TAB, LF, VT, FF, CR, SP, NBSP. *)
Definition is_white_space (c : Ascii.ascii) : bool :=
  match Ascii.N_of_ascii c with
  | 9%N | 10%N | 11%N | 12%N | 13%N | 32%N | 160%N => true
  | _ => false
  end.

Fixpoint trimStart (s : string) : string :=
  match s with
  | EmptyString => EmptyString
  | String c rest => if is_white_space c then trimStart rest else s
  end.

Fixpoint trimEnd (s : string) : string :=
  match s with
  | EmptyString => EmptyString
  | String c rest =>
      let t := trimEnd rest in
      if is_white_space c && String.eqb t "" then EmptyString else String c t
  end.

Definition trim (s : string) : string := trimEnd (trimStart s).

(** [x === name] for a string [name]: only the same string is strictly
    equal to it. *)
Definition is_string (name : string) (x : value) : bool :=
  match x with
  | VStr s => String.eqb s name
  | _ => false
  end.

(** [items.includes(name)] for a string [name]. *)
Definition includes (items : list value) (name : string) : bool :=
  existsb (is_string name) items.

(** [items.filter((s) => s !== name)]. *)
Definition without (items : list value) (name : string) : list value :=
  List.filter (fun s => negb (is_string name s)) items.

End JS.

(** ** The HTTP client

    [axios.get] and [axios.post] return a promise.  It is fulfilled with
    a response object (field [data]: the parsed body) for a status the
    client accepts, and rejected with an error object otherwise: the
    error has a [message], and a [response] when the server answered. *)
Module Axios.
Import JS.

Record http_response : Type := { data : value; status : Z }.

(** Error objects seen by a [catch]: the client's own errors and the
    [TypeError] of a failed property read (which has no [response]). *)
Record error : Type := { message : string; response : option http_response }.

Definition TypeError (msg : string) : error :=
  {| message := msg; response := None |}.

(** How the awaited promise settles. *)
Inductive settled : Type :=
| Fulfilled (r : http_response)
| Rejected (e : error).

Definition await (s : settled) : completion error http_response :=
  match s with
  | Fulfilled r => Normal r
  | Rejected e => Throw e
  end.

(** [error.response?.data?.detail]. *)
Definition detail (e : error) : value :=
  match response e with
  | None => VUndefined
  | Some r => opt_get (data r) "detail"
  end.

Inductive method : Type := GET | POST.

(** A request issued by the store; [path] is relative to
    [process.env.REACT_APP_BACKEND_URL]. *)
Record request : Type :=
  { verb : method; path : string; body : option value }.

(** [const API = `${BACKEND_URL}/api`]. *)
Definition API : string := "/api".

End Axios.

(** ** The zustand store

    The state is a JavaScript object: a finite map from field names to
    values.  [set(partial)] merges [partial] into the current state,
    fields of [partial] winning; reading a field that is not there gives
    [undefined]. *)
Module Zustand.
Import JS Axios.

Abbreviation state := (gmap string value).

Definition set (partial : gmap string value) (st : state) : state :=
  partial ∪ st.

Definition field (st : state) (k : string) : value :=
  default VUndefined (st !! k).

(** The body of an action of the store: it runs from a state, leaves a
    state, and returns or throws. *)
Definition act (A : Type) : Type := state -> state * completion error A.

Definition ret {A} (a : A) : act A := fun st => (st, Normal a).

Definition then_ {A B} (m : act A) (k : A -> act B) : act B :=
  fun st =>
    match m st with
    | (st', Normal a) => k a st'
    | (st', Throw e) => (st', Throw e)
    end.

(** [set(partial)], as a statement. *)
Definition update (partial : gmap string value) : act unit :=
  fun st => (set partial st, Normal tt).

(** An expression that reads no state. *)
Definition eval {A} (c : completion error A) : act A := fun st => (st, c).

(** [try { body } catch (error) { handler }]. *)
Definition try_catch {A} (body : act A) (handler : error -> act A) : act A :=
  fun st =>
    match body st with
    | (st', Normal a) => (st', Normal a)
    | (st', Throw e) => handler e st'
    end.

(** The state an action leaves, whether it returns or throws. *)
Definition after {A} (m : act A) (st : state) : state := fst (m st).

End Zustand.

(** The actions of the store, as a caller names them.  An [async] action
    runs in two steps: up to its [await] (which issues the request), and
    from there once the promise has settled; other actions may run in
    between.  The second step of [searchVideos] still has the [query] of
    its call. *)
Inductive action : Type :=
| SearchVideos (query sources : JS.value)
| SearchVideosSettled (query : JS.value) (s : Axios.settled)
| SelectVideo (video : JS.value)
| ClearResults
| SetLoading (loading : JS.value)
| SetError (error : JS.value)
| SetSearchQuery (query : JS.value)
| SetSelectedSources (sources : JS.value)
| FetchSources
| FetchSourcesSettled (s : Axios.settled).

(** ** [store/videoStore.js] *)
Module VideoStore.
Import JS Axios Zustand.

Definition initial : state :=
  {[ "results" := VArr [];
     "selectedVideo" := VNull;
     "isLoading" := VBool false;
     "error" := VNull;
     "searchQuery" := VStr "";
     "selectedSources" := VArr [VStr "all"];
     "availableSources" := VArr [];
     "isLoadingSources" := VBool false ]}.

(** The default parameter [sources = ['all']] replaces [undefined]. *)
Definition sources_or_default (sources : value) : value :=
  match sources with
  | VUndefined => VArr [VStr "all"]
  | _ => sources
  end.

(** [error.response?.data?.detail || error.message || fallback]. *)
Definition errorMessage (fallback : string) (error : Axios.error) : value :=
  or (or (detail error) (VStr (message error))) (VStr fallback).

(** [video ? video.title : 'None']. *)
Definition title_or_None (video : value) : value :=
  if truthy video then prop video "title" else VStr "None".

Section store.
Context {engine : Engine}.

(** [console.log] or [console.error] of a template literal: the values
    of the template are converted to strings.  (A call on a constant
    string, on [JSON.stringify(...)] of data or on an object passed
    beside the string converts nothing and always returns.) *)
Definition log (values : list value) : act unit :=
  eval (template TypeError values).

(** [searchVideos], up to the [await]: the log of the query, the state
    update, the second log, and the call
    [axios.post(`${API}/search`, { query, sources, page: 1, limit: 40 })]. *)
Definition searchVideos_begin (query sources : value) : act request :=
  let sources := sources_or_default sources in
  then_ (log [query]) (fun _ =>
  then_ (update {[ "isLoading" := VBool true; "error" := VNull;
                   "searchQuery" := query ]}) (fun _ =>
  then_ (log [query]) (fun _ =>
  ret {| verb := POST;
         path := API +:+ "/search";
         body := Some (VObj [("query", query); ("sources", sources);
                             ("page", VNum 1); ("limit", VNum 40)]) |}))).

(** [searchVideos], after the [await]: the [try] block from the
    response on, and the [catch]. *)
Definition searchVideos_settle (query : value) (s : settled) : act unit :=
  try_catch
    (then_ (eval (await s)) (fun response =>
     then_ (eval (get TypeError (data response) "results")) (fun results =>
     let fetchedResults := or results (VArr []) in
     then_ (log [query; len fetchedResults]) (fun _ =>
     then_ (update {[ "results" := fetchedResults;
                      "isLoading" := VBool false ]}) (fun _ =>
     log [len fetchedResults])))))
    (fun error =>
     let errorMessage := errorMessage "Search failed" error in
     then_ (log [query; errorMessage]) (fun _ =>
     then_ (update {[ "error" := errorMessage; "isLoading" := VBool false;
                      "results" := VArr [] ]}) (fun _ =>
     log [errorMessage]))).

(** The whole action when nothing else runs during the request; when
    the first step throws, no request is made and nothing settles. *)
Definition searchVideos (query sources : value) (s : settled) (st : state)
  : state :=
  match searchVideos_begin query sources st with
  | (st', Normal _) => after (searchVideos_settle query s) st'
  | (st', Throw _) => st'
  end.

Definition selectVideo (video : value) : act unit :=
  then_ (log [title_or_None video]) (fun _ =>
  update {[ "selectedVideo" := video ]}).

(** Its two logs are of constant strings. *)
Definition clearResults (st : state) : state :=
  set {[ "results" := VArr []; "selectedVideo" := VNull; "error" := VNull;
         "searchQuery" := VStr "" ]} st.

Definition setLoading (loading : value) : act unit :=
  then_ (log [loading]) (fun _ => update {[ "isLoading" := loading ]}).

Definition setError (error : value) : act unit :=
  then_ (log [error]) (fun _ => update {[ "error" := error ]}).

Definition setSearchQuery (query : value) : act unit :=
  then_ (log [query]) (fun _ => update {[ "searchQuery" := query ]}).

(** Its log is of [JSON.stringify(sources)]. *)
Definition setSelectedSources (sources : value) (st : state) : state :=
  set {[ "selectedSources" := sources ]} st.

(** [fetchSources], up to the [await]. *)
Definition fetchSources_begin (st : state) : state * request :=
  (set {[ "isLoadingSources" := VBool true; "error" := VNull ]} st,
   {| verb := GET; path := API +:+ "/sources"; body := None |}).

(** The [try] block up to its [set]: [response.data.sources || []] and
    the log of its length. *)
Definition fetchedSources (s : settled) : completion error value :=
  bind (await s) (fun response =>
  bind (get TypeError (data response) "sources") (fun sources =>
  let fetchedSources := or sources (VArr []) in
  bind (template TypeError [len fetchedSources]) (fun _ =>
  Normal fetchedSources))).

(** [fetchSources], after the [await]; the [catch] logs the error
    object, without a template. *)
Definition fetchSources_settle (s : settled) (st : state) : state :=
  match fetchedSources s with
  | Normal fetchedSources =>
      set {[ "availableSources" := fetchedSources;
             "isLoadingSources" := VBool false ]} st
  | Throw error =>
      set {[ "error" := errorMessage "Failed to fetch sources" error;
             "isLoadingSources" := VBool false ]} st
  end.

Definition fetchSources (s : settled) (st : state) : state :=
  fetchSources_settle s (fst (fetchSources_begin st)).

(** The state an action leaves. *)
Definition step (a : action) (st : state) : state :=
  match a with
  | SearchVideos query sources => after (searchVideos_begin query sources) st
  | SearchVideosSettled query s => after (searchVideos_settle query s) st
  | SelectVideo video => after (selectVideo video) st
  | ClearResults => clearResults st
  | SetLoading loading => after (setLoading loading) st
  | SetError error => after (setError error) st
  | SetSearchQuery query => after (setSearchQuery query) st
  | SetSelectedSources sources => setSelectedSources sources st
  | FetchSources => fst (fetchSources_begin st)
  | FetchSourcesSettled s => fetchSources_settle s st
  end.

(** The request an action issues, if any. *)
Definition issues (a : action) (st : state) : option request :=
  match a with
  | SearchVideos query sources =>
      match snd (searchVideos_begin query sources st) with
      | Normal rq => Some rq
      | Throw _ => None
      end
  | FetchSources => Some (snd (fetchSources_begin st))
  | _ => None
  end.

End store.
End VideoStore.

(** ** [App.js] *)
Module App.
Import JS Axios Zustand.

(** *** The copy of the store at the end of [App.js]

    It logs nothing but the error object of a failed [fetchSources]. *)
Module Store.

Definition initial : state :=
  {[ "results" := VArr [];
     "selectedVideo" := VNull;
     "isLoading" := VBool false;
     "error" := VNull;
     "searchQuery" := VStr "";
     "selectedSources" := VArr [VStr "all"];
     "availableSources" := VArr [] ]}.

Definition sources_or_default (sources : value) : value :=
  match sources with
  | VUndefined => VArr [VStr "all"]
  | _ => sources
  end.

Definition searchVideos_begin (query sources : value) (st : state)
  : state * request :=
  let sources := sources_or_default sources in
  (set {[ "isLoading" := VBool true; "error" := VNull; "searchQuery" := query ]} st,
   {| verb := POST;
      path := API +:+ "/search";
      body := Some (VObj [("query", query); ("sources", sources);
                          ("page", VNum 1); ("limit", VNum 40)]) |}).

Definition selectVideo (video : value) (st : state) : state :=
  set {[ "selectedVideo" := video ]} st.

Definition clearResults (st : state) : state :=
  set {[ "results" := VArr []; "selectedVideo" := VNull; "error" := VNull;
         "searchQuery" := VStr "" ]} st.

Definition setLoading (loading : value) (st : state) : state :=
  set {[ "isLoading" := loading ]} st.

Definition setError (error : value) (st : state) : state :=
  set {[ "error" := error ]} st.

Definition setSearchQuery (query : value) (st : state) : state :=
  set {[ "searchQuery" := query ]} st.

Definition setSelectedSources (sources : value) (st : state) : state :=
  set {[ "selectedSources" := sources ]} st.

(** [fetchSources] sets nothing before its [await]. *)
Definition fetchSources_begin (st : state) : state * request :=
  (st, {| verb := GET; path := API +:+ "/sources"; body := None |}).

Section store.
Context {engine : Engine}.

(** [response.data.results || []], inside the [try]. *)
Definition fetchedResults (s : settled) : completion error value :=
  bind (await s) (fun response =>
  bind (get TypeError (data response) "results") (fun results =>
  Normal (or results (VArr [])))).

Definition searchVideos_settle (s : settled) (st : state) : state :=
  match fetchedResults s with
  | Normal results =>
      set {[ "results" := results; "isLoading" := VBool false ]} st
  | Throw error =>
      set {[ "error" := or (detail error) (VStr "Search failed");
             "isLoading" := VBool false;
             "results" := VArr [] ]} st
  end.

Definition searchVideos (query sources : value) (s : settled) (st : state)
  : state :=
  searchVideos_settle s (fst (searchVideos_begin query sources st)).

Definition fetchedSources (s : settled) : completion error value :=
  bind (await s) (fun response =>
  bind (get TypeError (data response) "sources") (fun sources =>
  Normal (or sources (VArr [])))).

(** The [catch] only logs. *)
Definition fetchSources_settle (s : settled) (st : state) : state :=
  match fetchedSources s with
  | Normal sources => set {[ "availableSources" := sources ]} st
  | Throw _ => st
  end.

Definition fetchSources (s : settled) (st : state) : state :=
  fetchSources_settle s (fst (fetchSources_begin st)).

Definition step (a : action) (st : state) : state :=
  match a with
  | SearchVideos query sources => fst (searchVideos_begin query sources st)
  | SearchVideosSettled _ s => searchVideos_settle s st
  | SelectVideo video => selectVideo video st
  | ClearResults => clearResults st
  | SetLoading loading => setLoading loading st
  | SetError error => setError error st
  | SetSearchQuery query => setSearchQuery query st
  | SetSelectedSources sources => setSelectedSources sources st
  | FetchSources => fst (fetchSources_begin st)
  | FetchSourcesSettled s => fetchSources_settle s st
  end.

Definition issues (a : action) (st : state) : option request :=
  match a with
  | SearchVideos query sources => Some (snd (searchVideos_begin query sources st))
  | FetchSources => Some (snd (fetchSources_begin st))
  | _ => None
  end.

End store.
End Store.

(** *** The components

    They use the store imported from [./store/videoStore]. *)

(** What [SearchBar] renders for one source: the [key], whether the
    button is [disabled], and its text. *)
Record button : Type := { key : value; disabled : bool; label : value }.

(** What can happen to the page.  A click on a source button that is
    not there, or is disabled, does nothing.  A search that settles is
    one the page has submitted, for the text [query] of the input. *)
Inductive event : Type :=
| Mount                              (* useEffect: fetchSources() *)
| SourcesSettled (s : settled)
| Submit (query : string)            (* the form is submitted *)
| SearchSettled (query : string) (s : settled)
| ClickAllSources
| ClickSource (name : string)
| ClickVideo (video : value)         (* handleVideoSelect *)
| ClickBack                          (* handleBack: selectVideo(null) *)
| ClickClear.                        (* clearResults *)

(** [items.map(f)] for a callback that may throw. *)
Fixpoint map_throwing {E A B} (f : A -> completion E B) (items : list A)
  : completion E (list B) :=
  match items with
  | [] => Normal []
  | x :: rest =>
      bind (f x) (fun y => bind (map_throwing f rest) (fun ys => Normal (y :: ys)))
  end.

(** [onClick] of the "All Sources" button. *)
Definition allSources_onClick (st : state) : state :=
  VideoStore.setSelectedSources (VArr [VStr "all"]) st.

(** [onClick] of the button of the source called [name].  The handler is
    modelled where [selectedSources] is an array (as it is whenever it
    was set by these buttons), and [None] stands for the other states. *)
Definition source_onClick (name : string) (st : state) : option state :=
  match field st "selectedSources" with
  | VArr selectedSources =>
      if includes selectedSources "all" then
        Some (VideoStore.setSelectedSources (VArr [VStr name]) st)
      else
        let newSources :=
          if includes selectedSources name
          then without selectedSources name
          else (selectedSources ++ [VStr name])%list in
        Some (VideoStore.setSelectedSources
                (if truthy (VNum (Z.of_nat (length newSources)))
                 then VArr newSources
                 else VArr [VStr "all"]) st)
  | _ => None
  end.

Section components.
Context {engine : Engine}.

(** [App.handleSearch]: [searchVideos(query, sources)]; when the first
    step of the action throws, its promise is rejected and nothing
    awaits it. *)
Definition handleSearch (query sources : value) : act request :=
  VideoStore.searchVideos_begin query sources.

(** [SearchBar.handleSubmit], with [query] the text of the input and
    [onSearch] bound to [handleSearch]. *)
Definition handleSubmit (query : string) (st : state) : state * option request :=
  if truthy (VStr (trim query)) then
    match handleSearch (VStr query) (field st "selectedSources") st with
    | (st', Normal rq) => (st', Some rq)
    | (st', Throw _) => (st', None)
    end
  else (st, None).

Definition source_button (source : value) : completion error button :=
  bind (get TypeError source "name") (fun name =>
  bind (get TypeError source "enabled") (fun enabled =>
  bind (get TypeError source "driver_name") (fun driver_name =>
  Normal {| key := name;
            disabled := negb (truthy enabled);
            label := or driver_name name |}))).

(** [availableSources.map((source) => <button ...>)]. *)
Definition source_buttons (availableSources : value)
  : completion error (list button) :=
  match availableSources with
  | VArr sources => map_throwing source_button sources
  | VUndefined | VNull => Throw (TypeError (cannot_read availableSources "map"))
  | _ => Throw (TypeError (not_a_function "availableSources.map"))
  end.

(** Is there an enabled button for the source called [name]? *)
Definition clickable (name : string) (st : state) : bool :=
  match source_buttons (field st "availableSources") with
  | Normal buttons =>
      existsb (fun b => is_string name (key b) && negb (disabled b)) buttons
  | Throw _ => false
  end.

Definition handle (e : event) (st : state) : option state :=
  match e with
  | Mount => Some (fst (VideoStore.fetchSources_begin st))
  | SourcesSettled s => Some (VideoStore.fetchSources_settle s st)
  | Submit query => Some (fst (handleSubmit query st))
  | SearchSettled query s =>
      Some (after (VideoStore.searchVideos_settle (VStr query) s) st)
  | ClickAllSources => Some (allSources_onClick st)
  | ClickSource name =>
      if clickable name st then source_onClick name st else Some st
  | ClickVideo video => Some (after (VideoStore.selectVideo video) st)
  | ClickBack => Some (after (VideoStore.selectVideo VNull) st)
  | ClickClear => Some (VideoStore.clearResults st)
  end.

Fixpoint run (events : list event) (st : state) : option state :=
  match events with
  | [] => Some st
  | e :: rest =>
      match handle e st with
      | Some st' => run rest st'
      | None => None
      end
  end.

End components.
End App.

(** ** The aggregation core

    Modelled from the spec: the backend (suggestion engine, source
    registry, drivers, fetch client, result cache, search orchestrator)
    is not among the frontend sources; the definitions below follow the
    component contracts and the orchestrator's algorithm as the design
    document words them. *)
Module Core.

(** *** Data model *)

Inductive kind : Type := video | gif.

Record VideoRecord : Type :=
  { identifier : string; title : string; url : string;
    thumbnail : option string; duration : option string;
    views : option string; source : string; media : kind }.

Record SourceDescriptor : Type :=
  { name : string; driver_name : string; enabled : bool }.

(** The requested selection: the sentinel, or an explicit set of slugs. *)
Inductive selection : Type :=
| AllEnabled
| Slugs (slugs : list string).

Record SearchRequest : Type :=
  { query : string; sources : selection; page : Z; limit : Z }.

Record SearchKey : Type :=
  { key_query : string; key_sources : list string; key_page : Z }.

#[global] Instance SearchKey_eq_dec : EqDecision SearchKey.
Proof. solve_decision. Defined.

Record SearchResult : Type :=
  { results : list VideoRecord; total : Z; result_page : Z;
    sources_searched : list string }.

Record CacheEntry : Type :=
  { entry_key : SearchKey; entry_result : SearchResult; created : Z }.

(** The error taxonomy. *)
Inductive failure : Type :=
| InvalidRequest
| UnknownSource (slug : string)
| FetchFailed (lastError : string)
| ExtractionFailed.

Inductive outcome (A : Type) : Type :=
| Ok (a : A)
| Fail (f : failure).
Arguments Ok {A} a.
Arguments Fail {A} f.

(** *** SuggestionEngine *)

(** Modelled from the spec: the fixed qualifier suffixes. *)
Definition suffixes : list string := ["hd"; "compilation"; "amateur"].

(** Modelled from the spec: [suggest(query)] appends each suffix to the
    trimmed query (separated by a space, as in the documented response
    ["query hd"]). *)
Definition suggest (query : string) : list string :=
  (fun suffix => JS.trim query +:+ " " +:+ suffix) <$> suffixes.

(** *** Driver and SourceRegistry *)

(** Modelled from the spec: the three operations of a driver; [extract]
    either yields records or fails. *)
Record Driver : Type :=
  { slug : string;
    buildRequestTarget : string -> Z -> string;
    extract : string -> outcome (list VideoRecord) }.

(** A registered source: its descriptor and its driver. *)
Record Source : Type := { descriptor : SourceDescriptor; driver : Driver }.

(** [list()]: the descriptors in registration order. *)
Definition list_sources (registry : list Source) : list SourceDescriptor :=
  descriptor <$> registry.

Definition enabled_slugs (registry : list Source) : list string :=
  name <$> List.filter enabled (list_sources registry).

(** Modelled from the spec: [resolve(selection)], the sorted enabled
    slugs; unknown and disabled slugs of an explicit selection are
    dropped. *)
Definition resolve (registry : list Source) (sel : selection) : list string :=
  merge_sort String.le
    match sel with
    | AllEnabled => enabled_slugs registry
    | Slugs slugs =>
        List.filter (fun s => bool_decide (s ∈ slugs)) (enabled_slugs registry)
    end.

Definition set_flag (s : string) (b : bool) (src : Source) : Source :=
  if String.eqb (name (descriptor src)) s
  then {| descriptor := {| name := name (descriptor src);
                           driver_name := driver_name (descriptor src);
                           enabled := b |};
          driver := driver src |}
  else src.

(** [setEnabled(slug, bool)]. *)
Definition setEnabled (s : string) (b : bool) (registry : list Source)
  : outcome (list Source) :=
  if bool_decide (s ∈ name <$> list_sources registry)
  then Ok (set_flag s b <$> registry)
  else Fail (UnknownSource s).

(** *** FetchClient *)

(** What one attempt gives: a body, or a transport failure, a timeout or
    a non-success status. *)
Inductive attempt : Type :=
| Body (content : string)
| Failed (err : string).

(** The network: the answer to the [n]-th attempt made so far, for an
    address and a per-attempt timeout. *)
Definition network : Type := nat -> string -> Z -> attempt.

(** Modelled from the spec: [fetch] tries up to [budget] times and
    returns the first body; [n] counts the attempts made.  The delays
    between attempts do not change what is returned. *)
Fixpoint fetch_loop (net : network) (address : string) (budget : nat)
    (perAttemptTimeout : Z) (lastError : string) (n : nat)
  : outcome string * nat :=
  match budget with
  | O => (Fail (FetchFailed lastError), n)
  | S budget' =>
      match net n address perAttemptTimeout with
      | Body content => (Ok content, S n)
      | Failed err => fetch_loop net address budget' perAttemptTimeout err (S n)
      end
  end.

Definition fetch (net : network) (address : string) (budget : nat)
    (perAttemptTimeout : Z) (n : nat) : outcome string * nat :=
  fetch_loop net address budget perAttemptTimeout "no attempt made" n.

(** *** ResultCache

    The entries are kept most recently accessed first. *)

Definition expired (ttl now : Z) (e : CacheEntry) : bool :=
  ttl <? now - created e.

Fixpoint find (key : SearchKey) (entries : list CacheEntry) : option CacheEntry :=
  match entries with
  | [] => None
  | e :: rest => if bool_decide (entry_key e = key) then Some e else find key rest
  end.

Definition remove (key : SearchKey) (entries : list CacheEntry) : list CacheEntry :=
  List.filter (fun e => negb (bool_decide (entry_key e = key))) entries.

(** Modelled from the spec: [get(key)]; an expired entry is evicted by
    the access that finds it, a hit becomes the most recent entry. *)
Definition cache_get (ttl : Z) (key : SearchKey) (now : Z)
    (entries : list CacheEntry) : option SearchResult * list CacheEntry :=
  match find key entries with
  | None => (None, entries)
  | Some e =>
      if expired ttl now e then (None, remove key entries)
      else (Some (entry_result e), e :: remove key entries)
  end.

(** Modelled from the spec: [put(key, result)]; the new entry is the
    most recent one, and the least recently accessed entries beyond the
    capacity are evicted. *)
Definition cache_put (capacity : nat) (key : SearchKey) (result : SearchResult)
    (now : Z) (entries : list CacheEntry) : list CacheEntry :=
  take capacity
    ({| entry_key := key; entry_result := result; created := now |}
       :: remove key entries).

(** *** SearchOrchestrator *)

Record Config : Type :=
  { attempt_budget : nat; per_source_timeout : Z;
    cache_capacity : nat; cache_ttl : Z }.

(** The shared state, and the probe counting the attempts of the fetch
    client. *)
Record State : Type :=
  { registry : list Source; cache : list CacheEntry; fetches : nat }.

Definition lower_char (c : Ascii.ascii) : Ascii.ascii :=
  let n := Ascii.N_of_ascii c in
  if ((65 <=? n) && (n <=? 90))%N then Ascii.ascii_of_N (n + 32) else c.

Fixpoint lower (s : string) : string :=
  match s with
  | EmptyString => EmptyString
  | String c rest => String (lower_char c) (lower rest)
  end.

(** A request is rejected for an empty query or a non-positive page or
    limit. *)
Definition valid (req : SearchRequest) : bool :=
  negb (String.eqb (JS.trim (query req)) "") && (0 <? page req) && (0 <? limit req).

Definition search_key (registry : list Source) (req : SearchRequest) : SearchKey :=
  {| key_query := lower (JS.trim (query req));
     key_sources := resolve registry (sources req);
     key_page := page req |}.

(** One branch of the fan-out: target, fetch, extract; a failure at any
    stage is absorbed. *)
Definition run_source (net : network) (cfg : Config) (d : Driver)
    (q : string) (p : Z) (n : nat) : option (list VideoRecord) * nat :=
  let '(fetched, n') :=
    fetch net (buildRequestTarget d q p) (attempt_budget cfg)
          (per_source_timeout cfg) n in
  match fetched with
  | Ok content =>
      match extract d content with
      | Ok records => (Some records, n')
      | Fail _ => (None, n')
      end
  | Fail _ => (None, n')
  end.

(** The branches are joined in registration order whatever the order in
    which they finish; the model runs them in that order. *)
Fixpoint fan_out (net : network) (cfg : Config) (selected : list Source)
    (q : string) (p : Z) (n : nat)
  : list (string * list VideoRecord) * nat :=
  match selected with
  | [] => ([], n)
  | src :: rest =>
      let '(contribution, n1) := run_source net cfg (driver src) q p n in
      let '(others, n2) := fan_out net cfg rest q p n1 in
      (match contribution with
       | Some records => (name (descriptor src), records) :: others
       | None => others
       end, n2)
  end.

(** The registered sources whose slug is among the resolved ones, in
    registration order. *)
Definition selected (registry : list Source) (slugs : list string) : list Source :=
  List.filter (fun src => bool_decide (name (descriptor src) ∈ slugs)) registry.

(** Modelled from the spec: [search(request)], steps 1 to 6 of the
    orchestrator's algorithm, at time [now]. *)
Definition search (net : network) (cfg : Config) (req : SearchRequest)
    (now : Z) (st : State) : outcome SearchResult * State :=
  if negb (valid req) then (Fail InvalidRequest, st)
  else
    let key := search_key (registry st) req in
    match cache_get (cache_ttl cfg) key now (cache st) with
    | (Some result, cache') =>
        (Ok result,
         {| registry := registry st; cache := cache'; fetches := fetches st |})
    | (None, cache') =>
        let '(contributed, n) :=
          fan_out net cfg (selected (registry st) (key_sources key))
                  (query req) (page req) (fetches st) in
        let records := concat (snd <$> contributed) in
        let result :=
          {| results := take (Z.to_nat (limit req)) records;
             total := Z.of_nat (length records);
             result_page := page req;
             sources_searched := fst <$> contributed |} in
        (Ok result,
         {| registry := registry st;
            cache := cache_put (cache_capacity cfg) key result now cache';
            fetches := n |})
    end.

(** A source fails in a request whose fetch starts at attempt [n]: no
    attempt of its budget is the first to give a body from which its
    driver extracts records (every attempt fails, or the body that
    arrives is one the driver cannot read). *)
Definition source_fails (net : network) (cfg : Config) (req : SearchRequest)
    (src : Source) (n : nat) : Prop :=
  forall (i : nat) (content : string),
    (i < attempt_budget cfg)%nat ->
    (forall j, (j < i)%nat ->
       exists err,
         net (n + j)%nat (buildRequestTarget (driver src) (query req) (page req))
             (per_source_timeout cfg) = Failed err) ->
    net (n + i)%nat (buildRequestTarget (driver src) (query req) (page req))
        (per_source_timeout cfg) = Body content ->
    exists f, extract (driver src) content = Fail f.

(** Every source of the list fails in the request, the first one
    fetching from attempt [n] on and each of the others from where the
    one before it stopped. *)
Fixpoint all_fail (net : network) (cfg : Config) (req : SearchRequest)
    (sources : list Source) (n : nat) : Prop :=
  match sources with
  | [] => True
  | src :: rest =>
      source_fails net cfg req src n /\
      all_fail net cfg req rest
        (snd (run_source net cfg (driver src) (query req) (page req) n))
  end.

End Core.

(** ** A small installation of the core, for the examples *)
Module Fixture.
Import Core.

Definition record (src id : string) : VideoRecord :=
  {| identifier := id; title := id; url := "https://" +:+ src +:+ "/" +:+ id;
     thumbnail := None; duration := None; views := None;
     source := src; media := video |}.

(** A driver that finds three records in any page that is not empty. *)
Definition driver_of (s : string) : Driver :=
  {| slug := s;
     buildRequestTarget := fun q p => "https://" +:+ s +:+ "/?q=" +:+ q;
     extract := fun content =>
       if String.eqb content "" then Fail ExtractionFailed
       else Ok [record s "1"; record s "2"; record s "3"] |}.

Definition source_of (s : string) : Source :=
  {| descriptor := {| name := s; driver_name := s; enabled := true |};
     driver := driver_of s |}.

Definition config : Config :=
  {| attempt_budget := 3; per_source_timeout := 10;
     cache_capacity := 2; cache_ttl := 300 |}.

Definition fresh : State :=
  {| registry := [source_of "xvideos"; source_of "pornhub"];
     cache := []; fetches := 0 |}.

Definition request : SearchRequest :=
  {| query := "test"; sources := AllEnabled; page := 1; limit := 5 |}.

(** Three networks: every attempt answers; no attempt answers; the
    first two attempts fail. *)
Definition up : network := fun _ address _ => Body address.
Definition down : network := fun _ _ _ => Failed "timeout".
Definition flaky : network :=
  fun n address _ => if (n <? 2)%nat then Failed "reset" else Body address.

(** Only one of the sources answers. *)
Definition partial : network :=
  fun _ address _ =>
    if String.prefix "https://pornhub" address then Failed "blocked"
    else Body address.

End Fixture.

(** ** [App.js]: what the components show

    The attributes and children of the JSX the components return, as
    functions of the props and of the store. *)
Module View.
Import JS Axios Zustand.

(** A child [v && <element>]: the element when [v] is truthy, and
    otherwise [v] itself (which shows as nothing, or as its digits when
    it is a number). *)
Inductive child (A : Type) : Type :=
| Element (a : A)
| Bare (v : value).
Arguments Element {A} a.
Arguments Bare {A} v.

Definition and_then {A} (v : value) (a : A) : child A :=
  if truthy v then Element a else Bare v.

(** *** [SearchBar] *)

(** [disabled={isLoading}] of the input. *)
Definition input_disabled (isLoading : value) : bool := truthy isLoading.

(** [disabled={isLoading || !query.trim()}] of the submit button. *)
Definition submit_disabled (isLoading : value) (query : string) : bool :=
  truthy (or isLoading (VBool (negb (truthy (VStr (trim query)))))).

(** Is the "All Sources" button highlighted:
    [selectedSources.includes('all')].  As for the click handlers,
    [None] stands for a selection that is not an array. *)
Definition allSources_active (st : state) : option bool :=
  match field st "selectedSources" with
  | VArr selectedSources => Some (includes selectedSources "all")
  | _ => None
  end.

(** Is the button of the source called [name] highlighted:
    [selectedSources.includes(source.name) && !selectedSources.includes('all')]. *)
Definition source_active (name : string) (st : state) : option bool :=
  match field st "selectedSources" with
  | VArr selectedSources =>
      Some (includes selectedSources name && negb (includes selectedSources "all"))
  | _ => None
  end.

(** *** [VideoCard] *)

Record card : Type :=
  { thumbnail : value;              (* src of the image *)
    title : value;                  (* alt of the image, and the heading *)
    duration_badge : child value;   (* video.duration && ... *)
    source_badge : value;
    views_line : child value;       (* video.views && ... *)
    duration_line : child value }.

(** *** [VideoGrid] *)

(** One cell of the grid: its [key], the video its [onClick] passes to
    [onVideoSelect], and the card. *)
Record cell : Type := { cell_key : value; selects : value; shows : card }.

Inductive grid : Type :=
| Skeletons (n : nat)        (* Array.from({ length: 12 }) placeholders *)
| NoVideos                   (* "No videos found. Try a different search." *)
| Cards (cells : list cell).

Section components.
Context {engine : Engine}.

(** [v.length]: the number of items of an array, of code units of a
    string, the property of that name of an object, [undefined] on a
    number and on a boolean. *)
Definition length_of (v : value) : completion error value :=
  match v with
  | VUndefined | VNull => Throw (TypeError (cannot_read v "length"))
  | VArr items => Normal (VNum (Z.of_nat (length items)))
  | VStr s => Normal (VNum (Z.of_nat (String.length s)))
  | _ => Normal (prop v "length")
  end.

Definition VideoCard (video : value) : completion error card :=
  bind (get TypeError video "thumbnail") (fun thumbnail =>
  bind (get TypeError video "title") (fun title =>
  bind (get TypeError video "duration") (fun duration =>
  bind (get TypeError video "source") (fun source =>
  bind (get TypeError video "views") (fun views =>
  Normal {| thumbnail := thumbnail;
            title := title;
            duration_badge := and_then duration duration;
            source_badge := source;
            views_line := and_then views views;
            duration_line := and_then duration duration |}))))).

Definition grid_cell (video : value) : completion error cell :=
  bind (get TypeError video "id") (fun id =>
  bind (VideoCard video) (fun c =>
  Normal {| cell_key := id; selects := video; shows := c |})).

Definition VideoGrid (videos isLoading : value) : completion error grid :=
  if truthy isLoading then Normal (Skeletons 12)
  else
    bind (length_of videos) (fun len =>
    if negb (truthy len) then Normal NoVideos
    else
      match videos with
      | VArr items =>
          bind (App.map_throwing grid_cell items) (fun cells => Normal (Cards cells))
      | _ => Throw (TypeError (not_a_function "videos.map"))
      end).

(** *** [App] *)

(** The names the footer joins with [', ']:
    [availableSources.map(s => s.driver_name || s.name)]. *)
Definition footer_name (s : value) : completion error value :=
  bind (get TypeError s "driver_name") (fun driver_name =>
  bind (get TypeError s "name") (fun name =>
  Normal (or driver_name name))).

Definition footer_names (availableSources : value)
  : completion error (list value) :=
  match availableSources with
  | VArr sources => App.map_throwing footer_name sources
  | VUndefined | VNull => Throw (TypeError (cannot_read availableSources "map"))
  | _ => Throw (TypeError (not_a_function "availableSources.map"))
  end.

(** The request an event of the page issues, if any. *)
Definition issued (e : App.event) (st : state) : option request :=
  match e with
  | App.Mount => Some (snd (VideoStore.fetchSources_begin st))
  | App.Submit query => snd (App.handleSubmit query st)
  | _ => None
  end.

End components.
End View.

(** * Specifications *)

Import JS Axios Zustand.

(** The fields the two stores have in common. *)
Definition shared_fields : list string :=
  ["results"; "selectedVideo"; "isLoading"; "error"; "searchQuery";
   "selectedSources"; "availableSources"].

(** Two states agree when they give the same value to every common
    field, those of [skip] apart. *)
Definition agree_except (skip : list string) (a b : state) : Prop :=
  forall k, k ∈ shared_fields -> k ∉ skip -> a !! k = b !! k.

Definition agree (a b : state) : Prop := agree_except [] a b.

(** What the two actions read off a response: [response.data.results || []]
    and [response.data.sources || []]. *)
Definition results_of (r : http_response) : value :=
  or (prop (data r) "results") (VArr []).

Definition sources_of (r : http_response) : value :=
  or (prop (data r) "sources") (VArr []).

(** The actions after which the two stores leave the same [error]. *)
Definition same_error (a : action) : bool :=
  match a with
  | SearchVideosSettled _ (Fulfilled r) => negb (nullish (data r))
  | SearchVideosSettled _ (Rejected e) =>
      truthy (detail e) || String.eqb (message e) ""
  | FetchSources => false
  | FetchSourcesSettled (Fulfilled r) => negb (nullish (data r))
  | FetchSourcesSettled (Rejected _) => false
  | _ => true
  end.

(** The actions in which every value the store module puts in a log
    converts to a string: the query, the title of the video, the value
    given to a setter, the length of what arrived, the message of the
    failure. *)
Definition logs_convert (a : action) : bool :=
  match a with
  | SearchVideos query _ => convertible query
  | SearchVideosSettled query (Fulfilled r) =>
      convertible query && (nullish (data r) || convertible (len (results_of r)))
  | SearchVideosSettled query (Rejected e) =>
      convertible query && convertible (VideoStore.errorMessage "Search failed" e)
  | SelectVideo video => convertible (VideoStore.title_or_None video)
  | SetLoading v | SetError v | SetSearchQuery v => convertible v
  | FetchSourcesSettled (Fulfilled r) =>
      nullish (data r) || convertible (len (sources_of r))
  | _ => true
  end.

(** The body of a search request: the four fields, in the order of the
    object literal. *)
Definition search_request (query sources : value) (rq : request) : Prop :=
  verb rq = POST /\ path rq = "/api/search" /\
  exists fields page limit,
    body rq = Some (VObj fields) /\
    fields.*1 = ["query"; "sources"; "page"; "limit"] /\
    assoc "query" fields = query /\
    assoc "sources" fields = sources /\
    assoc "page" fields = VNum page /\
    assoc "limit" fields = VNum limit /\
    page = 1 /\ limit = 40 /\ 0 < page /\ 0 < limit.

(** The request as the server receives it: the client writes the body
    with [JSON.stringify]. *)
Definition on_the_wire (rq : request) : request :=
  {| verb := verb rq; path := path rq; body := serialized <$> body rq |}.

(** The names of the fields of the body the server receives. *)
Definition fields_sent (rq : request) : option (list string) :=
  match body (on_the_wire rq) with
  | Some (VObj fields) => Some fields.*1
  | _ => None
  end.

(** What [clearResults] sets and what it leaves. *)
Definition clears (clearResults : state -> state) : Prop :=
  forall st : state,
    clearResults st !! "results" = Some (VArr []) /\
    clearResults st !! "selectedVideo" = Some VNull /\
    clearResults st !! "error" = Some VNull /\
    clearResults st !! "searchQuery" = Some (VStr "") /\
    clearResults st !! "selectedSources" = st !! "selectedSources" /\
    clearResults st !! "availableSources" = st !! "availableSources" /\
    forall k, k ∉ ["results"; "selectedVideo"; "error"; "searchQuery"] ->
              clearResults st !! k = st !! k.

(** An action that leaves every field other than [k] as it was. *)
Definition changes_only (k : string) (action : state -> state) : Prop :=
  forall (st : state) (k' : string), k' <> k -> action st !! k' = st !! k'.


(** The button of a source record. *)
Definition button_of (source : value) : App.button :=
  {| App.key := prop source "name";
     App.disabled := negb (truthy (prop source "enabled"));
     App.label := or (prop source "driver_name") (prop source "name") |}.

(** The selection is the sentinel alone, or explicit slugs without it. *)
Definition selection_ok (st : state) : Prop :=
  field st "selectedSources" = VArr [VStr "all"] \/
  exists slugs : list string,
    slugs <> [] /\ ("all" ∉ slugs) /\
    field st "selectedSources" = VArr (VStr <$> slugs).

(** A query as the request data model wants it. *)
Definition trimmed_nonempty (q : string) : Prop := q <> "" /\ trim q = q.

(** The [query] field of an issued request. *)
Definition query_of (rq : request) : value :=
  match body rq with
  | Some b => prop b "query"
  | None => VUndefined
  end.

(** A setter gives its field the argument and leaves the other fields. *)
Definition sets_only (k : string) (setter : value -> state -> state) : Prop :=
  forall (v : value) (st : state),
    setter v st !! k = Some v /\
    forall k', k' <> k -> setter v st !! k' = st !! k'.

(** The [try] block of an action of the copy in [App.js] throws: the
    request is rejected, or its body is [null] or [undefined] and
    cannot be read. *)
Definition throws (s : settled) : bool :=
  match s with
  | Fulfilled r => nullish (data r)
  | Rejected _ => true
  end.

(** The [try] block of [searchVideos] in the store module runs to its
    end: there is a body, and the length it logs converts to a string. *)
Definition results_arrive (s : settled) : bool :=
  match s with
  | Fulfilled r => negb (nullish (data r)) && convertible (len (results_of r))
  | Rejected _ => false
  end.


(** The [catch] of [searchVideos] in the store module, were it entered
    for a rejected request, gets past its log: the message converts to
    a string.  (The error of a failed read or conversion always has a
    message that does.) *)
Definition reported (s : settled) : bool :=
  match s with
  | Fulfilled _ => true
  | Rejected e => convertible (VideoStore.errorMessage "Search failed" e)
  end.

(** The selection is the sentinel alone, or explicit slugs without it
    and without repetition. *)
Definition selection_distinct (st : state) : Prop :=
  field st "selectedSources" = VArr [VStr "all"] \/
  exists slugs : list string,
    slugs <> [] /\ ("all" ∉ slugs) /\ NoDup slugs /\
    field st "selectedSources" = VArr (VStr <$> slugs).

(** The explicit selection after a click on the button of [name]: the
    name is taken out when it is there and put last when it is not, and
    the sentinel stands in for an empty list. *)
Definition toggled (name : string) (slugs : list string) : list string :=
  let new :=
    if bool_decide (name ∈ slugs)
    then List.filter (fun s => negb (String.eqb s name)) slugs
    else (slugs ++ [name])%list in
  if bool_decide (new <> []) then new else ["all"].

(** The card and the grid cell of a video record. *)
Definition card_of (video : value) : View.card :=
  {| View.thumbnail := prop video "thumbnail";
     View.title := prop video "title";
     View.duration_badge :=
       View.and_then (prop video "duration") (prop video "duration");
     View.source_badge := prop video "source";
     View.views_line := View.and_then (prop video "views") (prop video "views");
     View.duration_line :=
       View.and_then (prop video "duration") (prop video "duration") |}.

Definition cell_of (video : value) : View.cell :=
  {| View.cell_key := prop video "id";
     View.selects := video;
     View.shows := card_of video |}.

(** * Properties of the store *)

Section properties.
Context {engine : Engine}.

Lemma lookup_set_Some (partial : gmap string value) (st : state) k v :
  partial !! k = Some v -> set partial st !! k = Some v.
Proof. intros Hp. unfold set. by apply lookup_union_Some_l. Qed.

Lemma lookup_set_None (partial : gmap string value) (st : state) k :
  partial !! k = None -> set partial st !! k = st !! k.
Proof. intros Hp. unfold set. by apply lookup_union_r. Qed.

Lemma field_set_Some (partial : gmap string value) (st : state) k v :
  partial !! k = Some v -> field (set partial st) k = v.
Proof. intros Hp. unfold field. by rewrite (lookup_set_Some _ _ _ _ Hp). Qed.

Lemma field_set_None (partial : gmap string value) (st : state) k :
  partial !! k = None -> field (set partial st) k = field st k.
Proof. intros Hp. unfold field. by rewrite (lookup_set_None _ _ _ Hp). Qed.

(** A key that differs from every key of a literal partial state is not
    set by it. *)
Ltac not_in_partial :=
  repeat (rewrite lookup_insert_ne; [|set_solver]);
  apply lookup_singleton_ne; set_solver.

(** Running the body of an action: the steps are unfolded down to the
    tests on the values that are logged. *)
Ltac run_action :=
  cbv beta iota zeta delta
    [VideoStore.searchVideos_begin VideoStore.searchVideos_settle
     VideoStore.selectVideo VideoStore.setLoading VideoStore.setError
     VideoStore.setSearchQuery VideoStore.log
     then_ eval try_catch update ret after template bind await get fst snd].

Ltac run_action_with tac := run_action; repeat (progress tac; run_action).

Lemma or_truthy_r a b : truthy b = true -> truthy (or a b) = true.
Proof. unfold or. by destruct (truthy a) eqn:?. Qed.

Lemma truthy_not_null v : truthy v = true -> v <> VNull.
Proof. by intros Hp ->. Qed.

Lemma errorMessage_truthy fallback e :
  fallback <> "" -> truthy (VideoStore.errorMessage fallback e) = true.
Proof.
  intros Hf. apply or_truthy_r. simpl.
  by destruct (String.eqb_spec fallback "").
Qed.

(** The error of a failed read or conversion has its message as only
    field, and a message is a string. *)
Lemma errorMessage_TypeError fallback msg :
  VideoStore.errorMessage fallback (TypeError msg) = or (VStr msg) (VStr fallback).
Proof. reflexivity. Qed.

Lemma convertible_or_strings a b : convertible (or (VStr a) (VStr b)) = true.
Proof. unfold or. by destruct (truthy (VStr a)). Qed.

(** ** The setters and [selectVideo] *)

Lemma setLoading_eq v (st : state) :
  after (VideoStore.setLoading v) st
    = if convertible v then set {[ "isLoading" := v ]} st else st.
Proof. run_action. by destruct (convertible v). Qed.

Lemma setError_eq v (st : state) :
  after (VideoStore.setError v) st
    = if convertible v then set {[ "error" := v ]} st else st.
Proof. run_action. by destruct (convertible v). Qed.

Lemma setSearchQuery_eq v (st : state) :
  after (VideoStore.setSearchQuery v) st
    = if convertible v then set {[ "searchQuery" := v ]} st else st.
Proof. run_action. by destruct (convertible v). Qed.

Lemma selectVideo_eq video (st : state) :
  after (VideoStore.selectVideo video) st
    = if convertible (VideoStore.title_or_None video)
      then set {[ "selectedVideo" := video ]} st else st.
Proof. run_action. by destruct (convertible _). Qed.

Lemma selectVideo_null (st : state) :
  after (VideoStore.selectVideo VNull) st = set {[ "selectedVideo" := VNull ]} st.
Proof. by rewrite selectVideo_eq. Qed.

(** ** The two steps of [searchVideos] *)

Lemma searchVideos_begin_eq query sources (st : state) :
  VideoStore.searchVideos_begin query sources st
    = if convertible query
      then (set {[ "isLoading" := VBool true; "error" := VNull;
                   "searchQuery" := query ]} st,
            Normal {| verb := POST; path := API +:+ "/search";
                      body := Some (VObj [("query", query);
                                          ("sources", VideoStore.sources_or_default sources);
                                          ("page", VNum 1); ("limit", VNum 40)]) |})
      else (st, Throw (TypeError (cannot_convert query))).
Proof. run_action. by destruct (convertible query). Qed.

Lemma embedded_searchVideos_begin_eq query sources (st : state) :
  convertible query = true ->
  VideoStore.searchVideos_begin query sources st
    = (fst (App.Store.searchVideos_begin query sources st),
       Normal (snd (App.Store.searchVideos_begin query sources st))).
Proof. intros Hq. by rewrite searchVideos_begin_eq, Hq. Qed.

(** A rejected request. *)
Lemma searchVideos_settle_Rejected query e (st : state) :
  convertible query = true ->
  after (VideoStore.searchVideos_settle query (Rejected e)) st
    = if convertible (VideoStore.errorMessage "Search failed" e)
      then set {[ "error" := VideoStore.errorMessage "Search failed" e;
                  "isLoading" := VBool false; "results" := VArr [] ]} st
      else st.
Proof.
  intros Hq. run_action_with ltac:(rewrite ?Hq).
  by destruct (convertible (VideoStore.errorMessage _ _)).
Qed.

(** A response whose body is [null] or [undefined]. *)
Lemma searchVideos_settle_null query r (st : state) :
  convertible query = true -> nullish (data r) = true ->
  after (VideoStore.searchVideos_settle query (Fulfilled r)) st
    = set {[ "error" := or (VStr (cannot_read (data r) "results")) (VStr "Search failed");
             "isLoading" := VBool false; "results" := VArr [] ]} st.
Proof.
  intros Hq Hnull.
  by run_action_with
       ltac:(rewrite ?Hnull, ?Hq, ?errorMessage_TypeError, ?convertible_or_strings).
Qed.

(** A response whose [results] have a length that has no conversion. *)
Lemma searchVideos_settle_length query r (st : state) :
  convertible query = true -> nullish (data r) = false ->
  convertible (len (results_of r)) = false ->
  after (VideoStore.searchVideos_settle query (Fulfilled r)) st
    = set {[ "error" := or (VStr (cannot_convert (len (results_of r))))
                           (VStr "Search failed");
             "isLoading" := VBool false; "results" := VArr [] ]} st.
Proof.
  intros Hq Hnull Hlen. unfold results_of in *.
  by run_action_with
       ltac:(rewrite ?Hnull, ?Hq, ?Hlen, ?errorMessage_TypeError,
               ?convertible_or_strings).
Qed.

(** The other responses. *)
Lemma searchVideos_settle_Fulfilled query r (st : state) :
  convertible query = true -> results_arrive (Fulfilled r) = true ->
  after (VideoStore.searchVideos_settle query (Fulfilled r)) st
    = set {[ "results" := results_of r; "isLoading" := VBool false ]} st.
Proof.
  intros Hq [Hnull Hlen]%andb_true_iff. apply negb_true_iff in Hnull.
  unfold results_of in *.
  by run_action_with ltac:(rewrite ?Hnull, ?Hq, ?Hlen).
Qed.

(** When the query has no conversion, the logs of the second step
    throw in the [try] and in the [catch]. *)
Lemma searchVideos_settle_query query s (st : state) :
  convertible query = false ->
  after (VideoStore.searchVideos_settle query s) st = st.
Proof.
  intros Hq. destruct s as [r|e].
  - destruct (nullish (data r)) eqn:Hnull;
      by run_action_with ltac:(rewrite ?Hnull, ?Hq).
  - by run_action_with ltac:(rewrite ?Hq).
Qed.

(** In every case, the second step leaves the state, stores the results
    or reports a failure. *)
Lemma searchVideos_settle_cases query s (st : state) :
  after (VideoStore.searchVideos_settle query s) st = st \/
  (results_arrive s = true /\
   exists r,
     s = Fulfilled r /\
     after (VideoStore.searchVideos_settle query s) st
       = set {[ "results" := results_of r; "isLoading" := VBool false ]} st) \/
  (results_arrive s = false /\
   exists msg,
     truthy msg = true /\
     after (VideoStore.searchVideos_settle query s) st
       = set {[ "error" := msg; "isLoading" := VBool false;
                "results" := VArr [] ]} st).
Proof.
  destruct (convertible query) eqn:Hq;
    [|left; by apply searchVideos_settle_query].
  destruct s as [r|e].
  - destruct (results_arrive (Fulfilled r)) eqn:Ha.
    + right; left. split; [done|]. exists r. split; [done|].
      by apply searchVideos_settle_Fulfilled.
    + right; right. split; [done|]. simpl in Ha.
      destruct (nullish (data r)) eqn:Hnull.
      * eexists. split; [|by apply searchVideos_settle_null].
        by apply or_truthy_r.
      * eexists. split; [|by apply searchVideos_settle_length].
        by apply or_truthy_r.
  - rewrite searchVideos_settle_Rejected by done.
    destruct (convertible (VideoStore.errorMessage _ _)); [|by left].
    right; right. split; [done|].
    eexists. split; [|done]. by apply errorMessage_truthy.
Qed.

(** The second step of the copy in [App.js]. *)
Lemma embedded_searchVideos_settle_eq s (st : state) :
  App.Store.searchVideos_settle s st
    = match s with
      | Fulfilled r =>
          if nullish (data r)
          then set {[ "error" := VStr "Search failed"; "isLoading" := VBool false;
                      "results" := VArr [] ]} st
          else set {[ "results" := results_of r; "isLoading" := VBool false ]} st
      | Rejected e =>
          set {[ "error" := or (detail e) (VStr "Search failed");
                 "isLoading" := VBool false; "results" := VArr [] ]} st
      end.
Proof.
  unfold App.Store.searchVideos_settle, App.Store.fetchedResults, get.
  destruct s as [r|e]; [|done]. simpl. by destruct (nullish (data r)).
Qed.

(** ** [clearResults] and [selectVideo] *)

Lemma clearResults_clears : clears VideoStore.clearResults.
Proof.
  intros st. unfold VideoStore.clearResults.
  repeat split; try (by apply lookup_set_Some); try (by apply lookup_set_None).
  intros k Hk. apply lookup_set_None. not_in_partial.
Qed.

Lemma embedded_clearResults_clears : clears App.Store.clearResults.
Proof.
  intros st. unfold App.Store.clearResults.
  repeat split; try (by apply lookup_set_Some); try (by apply lookup_set_None).
  intros k Hk. apply lookup_set_None. not_in_partial.
Qed.

Lemma set_singleton_only k v (st : state) :
  set {[ k := v ]} st !! k = Some v /\
  forall k', k' <> k -> set {[ k := v ]} st !! k' = st !! k'.
Proof.
  split.
  - apply lookup_set_Some. apply lookup_singleton_eq.
  - intros k' Hk. apply lookup_set_None. by apply lookup_singleton_ne.
Qed.

Lemma selectVideo_changes_only video :
  changes_only "selectedVideo" (after (VideoStore.selectVideo video)).
Proof.
  intros st k Hk. rewrite selectVideo_eq.
  destruct (convertible (VideoStore.title_or_None video)); [|done].
  by apply set_singleton_only.
Qed.

Lemma embedded_selectVideo_changes_only video :
  changes_only "selectedVideo" (App.Store.selectVideo video).
Proof. intros st k Hk. by apply set_singleton_only. Qed.

(** C10: [clearResults] sets exactly [results] (to the empty list),
    [selectedVideo] (to [null]), [error] (to [null]) and [searchQuery]
    (to the empty string) and leaves every other field, among them
    [selectedSources] and [availableSources], as it was; [selectVideo]
    changes no field other than [selectedVideo], whatever it is given.
    This holds for the store module and for the copy in [App.js].  The
    copy stores the video in [selectedVideo] in every case; the store
    module stores it when the title it logs converts to a string, and
    otherwise throws before its [set] and leaves [selectedVideo] too. *)
Theorem clearResults_selectVideo_frame :
  clears VideoStore.clearResults /\ clears App.Store.clearResults /\
  (forall video : value,
     changes_only "selectedVideo" (after (VideoStore.selectVideo video)) /\
     changes_only "selectedVideo" (App.Store.selectVideo video)) /\
  (forall (video : value) (st : state),
     App.Store.selectVideo video st !! "selectedVideo" = Some video /\
     after (VideoStore.selectVideo video) st !! "selectedVideo"
       = if convertible (VideoStore.title_or_None video)
         then Some video else st !! "selectedVideo").
Proof.
  split; [apply clearResults_clears|]. split; [apply embedded_clearResults_clears|].
  split.
  - intros video.
    split; [apply selectVideo_changes_only|apply embedded_selectVideo_changes_only].
  - intros video st. split; [by apply set_singleton_only|].
    rewrite selectVideo_eq.
    destruct (convertible (VideoStore.title_or_None video)); [|done].
    by apply set_singleton_only.
Qed.

(** ** The request of [searchVideos] *)

Lemma sources_or_default_defined sources :
  VideoStore.sources_or_default sources <> VUndefined.
Proof. by destruct sources. Qed.

Lemma search_request_literal query sources :
  search_request query sources
    {| verb := POST; path := API +:+ "/search";
       body := Some (VObj [("query", query); ("sources", sources);
                           ("page", VNum 1); ("limit", VNum 40)]) |}.
Proof.
  repeat split. eexists _, 1, 40. simpl. repeat split; reflexivity || lia.
Qed.

(** On the wire the four fields are there when the query and the
    sources are. *)
Lemma search_request_on_the_wire query sources :
  query <> VUndefined -> sources <> VUndefined ->
  search_request (serialized query) (serialized sources)
    (on_the_wire
       {| verb := POST; path := API +:+ "/search";
          body := Some (VObj [("query", query); ("sources", sources);
                              ("page", VNum 1); ("limit", VNum 40)]) |}).
Proof.
  intros Hq Hs. repeat split. eexists _, 1, 40.
  destruct query; try done; destruct sources; try done;
    (split; [reflexivity|]); repeat split; reflexivity || lia.
Qed.

(** A query that is [undefined] is not written. *)
Lemma fields_sent_undefined sources :
  sources <> VUndefined ->
  fields_sent
    {| verb := POST; path := API +:+ "/search";
       body := Some (VObj [("query", VUndefined); ("sources", sources);
                           ("page", VNum 1); ("limit", VNum 40)]) |}
    = Some ["sources"; "page"; "limit"].
Proof. intros Hs. by destruct sources. Qed.

(** C1, amended: [searchVideos] passes to [axios.post], for
    [/api/search], an object with exactly the fields [query], [sources],
    [page] and [limit], where [page] is 1 and [limit] is 40 (both
    positive), [query] is the argument and [sources] is the argument
    or, when that is [undefined], the default [["all"]].  The body that
    is sent has these four fields when the query is not [undefined]; a
    query that is [undefined] is left out of it, and three fields are
    sent.  The copy in [App.js] issues this request for every query; the
    store module issues the same request when the query converts to a
    string, and otherwise throws in its first log and issues none. *)
Theorem searchVideos_request_body :
  forall (query sources : value) (st : state),
    (exists rq,
       App.Store.issues (SearchVideos query sources) st = Some rq /\
       VideoStore.issues (SearchVideos query sources) st
         = (if convertible query then Some rq else None) /\
       search_request query (VideoStore.sources_or_default sources) rq /\
       (query <> VUndefined ->
        search_request (serialized query)
          (serialized (VideoStore.sources_or_default sources)) (on_the_wire rq)) /\
       (query = VUndefined ->
        fields_sent rq = Some ["sources"; "page"; "limit"])).
Proof.
  intros query sources st. eexists. split; [reflexivity|]. split; [|split; [|split]].
  - unfold VideoStore.issues. rewrite searchVideos_begin_eq.
    by destruct (convertible query).
  - apply search_request_literal.
  - intros Hq. apply search_request_on_the_wire; [done|].
    apply sources_or_default_defined.
  - intros ->. apply fields_sent_undefined, sources_or_default_defined.
Qed.

(** ** How [searchVideos] ends *)


Lemma results_of_absent r :
  nullish (data r) = false -> prop (data r) "results" = VUndefined ->
  results_of r = VArr [] /\ results_arrive (Fulfilled r) = true.
Proof.
  intros Hnull Habsent. unfold results_arrive, results_of.
  by rewrite Habsent, Hnull.
Qed.

(** C9, amended: how the second step of [searchVideos] leaves the
    store, from whatever state the answer finds it in.  In the copy in
    [App.js], [isLoading] is [false]; after a rejected request, and
    after a response whose body is [null], [results] is the empty list
    and [error] is a message that is not [null]; after a response with
    a body, [results] is the [results] field of the body, or the empty
    list when the field is absent, and [error] is left as it was
    ([null] when nothing has set it since the first step, which clears
    it).  The store module does the same when the values it logs convert
    to strings; it handles a response whose results have a length
    without a conversion as a failure; when the message of a rejected
    request has no conversion it throws in its [catch] and leaves the
    state, [isLoading] included, as it was; and for a query without a
    conversion it throws in its first log, makes no request and
    changes nothing. *)
Theorem searchVideos_completion :
  forall (query sources : value) (s : settled) (st : state),
    let st1 := after (VideoStore.searchVideos_settle query s) st in
    let st2 := App.Store.searchVideos_settle s st in
    field (fst (App.Store.searchVideos_begin query sources st)) "error" = VNull /\
    field st2 "isLoading" = VBool false /\
    (throws s = true ->
       field st2 "results" = VArr [] /\ field st2 "error" <> VNull) /\
    (forall r, s = Fulfilled r -> nullish (data r) = false ->
       field st2 "error" = field st "error" /\
       field st2 "results" = results_of r /\
       (prop (data r) "results" = VUndefined -> field st2 "results" = VArr []) /\
       (forall items, prop (data r) "results" = VArr items ->
                      field st2 "results" = VArr items)) /\
    (convertible query = false ->
       VideoStore.searchVideos query sources s st = st /\
       VideoStore.issues (SearchVideos query sources) st = None) /\
    (convertible query = true ->
       field (after (VideoStore.searchVideos_begin query sources) st) "error" = VNull /\
       (forall e, s = Rejected e ->
          if convertible (VideoStore.errorMessage "Search failed" e)
          then field st1 "isLoading" = VBool false /\
               field st1 "results" = VArr [] /\
               field st1 "error" = VideoStore.errorMessage "Search failed" e /\
               field st1 "error" <> VNull
          else st1 = st) /\
       (forall r, s = Fulfilled r ->
          field st1 "isLoading" = VBool false /\
          if results_arrive s
          then field st1 "error" = field st "error" /\
               field st1 "results" = results_of r /\
               (prop (data r) "results" = VUndefined -> field st1 "results" = VArr []) /\
               (forall items, prop (data r) "results" = VArr items ->
                              field st1 "results" = VArr items)
          else field st1 "results" = VArr [] /\ field st1 "error" <> VNull)).
Proof.
  intros query sources s st st1 st2. subst st1 st2.
  split; [by apply field_set_Some|].
  rewrite embedded_searchVideos_settle_eq.
  split; [|split; [|split; [|split]]].
  - destruct s as [r|e]; [destruct (nullish (data r))|]; by apply field_set_Some.
  - intros Ht. destruct s as [r|e]; simpl in Ht; [rewrite Ht|].
    + split; [by apply field_set_Some|].
      by erewrite field_set_Some by reflexivity.
    + split; [by apply field_set_Some|].
      erewrite field_set_Some by reflexivity.
      by apply truthy_not_null, or_truthy_r.
  - intros r -> Hnull. rewrite Hnull.
    split; [by apply field_set_None|].
    erewrite (field_set_Some _ _ "results") by reflexivity.
    split; [done|]. unfold results_of.
    split; [by intros ->|by intros items ->].
  - intros Hq. unfold VideoStore.searchVideos, VideoStore.issues.
    by rewrite searchVideos_begin_eq, Hq.
  - intros Hq. split.
    { unfold after. rewrite searchVideos_begin_eq, Hq. by apply field_set_Some. }
    split.
    + intros e ->. rewrite searchVideos_settle_Rejected by done.
      destruct (convertible (VideoStore.errorMessage "Search failed" e)); [|done].
      split; [by apply field_set_Some|]. split; [by apply field_set_Some|].
      erewrite (field_set_Some _ _ "error") by reflexivity.
      split; [done|]. by apply truthy_not_null, errorMessage_truthy.
    + intros r ->. destruct (results_arrive (Fulfilled r)) eqn:Ha.
      * rewrite searchVideos_settle_Fulfilled by done.
        split; [by apply field_set_Some|].
        split; [by apply field_set_None|].
        erewrite (field_set_Some _ _ "results") by reflexivity.
        split; [done|]. unfold results_of.
        split; [by intros ->|by intros items ->].
      * simpl in Ha. destruct (nullish (data r)) eqn:Hnull.
        -- rewrite searchVideos_settle_null by done.
           split; [by apply field_set_Some|]. split; [by apply field_set_Some|].
           erewrite (field_set_Some _ _ "error") by reflexivity.
           by apply truthy_not_null, or_truthy_r.
        -- rewrite searchVideos_settle_length by done.
           split; [by apply field_set_Some|]. split; [by apply field_set_Some|].
           erewrite (field_set_Some _ _ "error") by reflexivity.
           by apply truthy_not_null, or_truthy_r.
Qed.

(** ** [fetchSources] *)

Lemma fetchedSources_eq s :
  VideoStore.fetchedSources s
    = match s with
      | Rejected e => Throw e
      | Fulfilled r =>
          if nullish (data r)
          then Throw (TypeError (cannot_read (data r) "sources"))
          else if convertible (len (sources_of r))
               then Normal (sources_of r)
               else Throw (TypeError (cannot_convert (len (sources_of r))))
      end.
Proof.
  unfold VideoStore.fetchedSources, get, sources_of.
  destruct s as [r|e]; [|done]. simpl.
  destruct (nullish (data r)); [done|]. simpl.
  by destruct (convertible _).
Qed.

Lemma embedded_fetchedSources_eq s :
  App.Store.fetchedSources s
    = match s with
      | Rejected e => Throw e
      | Fulfilled r =>
          if nullish (data r)
          then Throw (TypeError (cannot_read (data r) "sources"))
          else Normal (sources_of r)
      end.
Proof.
  unfold App.Store.fetchedSources, get, sources_of.
  destruct s as [r|e]; [|done]. simpl. by destruct (nullish (data r)).
Qed.










(** * Properties of the search bar *)

(** The steps of [searchVideos] set nothing but [isLoading], [error],
    [searchQuery] and [results]. *)
Lemma searchVideos_begin_frame query sources (st : state) k :
  k ∉ ["isLoading"; "error"; "searchQuery"] ->
  after (VideoStore.searchVideos_begin query sources) st !! k = st !! k.
Proof.
  intros Hk. unfold after. rewrite searchVideos_begin_eq.
  destruct (convertible query); [|done]. apply lookup_set_None. not_in_partial.
Qed.

Lemma searchVideos_settle_frame query s (st : state) k :
  k ∉ ["isLoading"; "error"; "results"] ->
  after (VideoStore.searchVideos_settle query s) st !! k = st !! k.
Proof.
  intros Hk.
  destruct (searchVideos_settle_cases query s st)
    as [->|[(_ & r & _ & ->)|(_ & msg & _ & ->)]]; [done|..];
    apply lookup_set_None; not_in_partial.
Qed.

Lemma embedded_searchVideos_begin_frame query sources (st : state) k :
  k ∉ ["isLoading"; "error"; "searchQuery"] ->
  fst (App.Store.searchVideos_begin query sources st) !! k = st !! k.
Proof. intros Hk. simpl. apply lookup_set_None. not_in_partial. Qed.

Lemma embedded_searchVideos_settle_frame s (st : state) k :
  k ∉ ["isLoading"; "error"; "results"] ->
  App.Store.searchVideos_settle s st !! k = st !! k.
Proof.
  intros Hk. rewrite embedded_searchVideos_settle_eq.
  destruct s as [r|e]; [destruct (nullish (data r))|];
    apply lookup_set_None; not_in_partial.
Qed.

(** A submit starts a search for the text as typed, when the text has a
    character that is not white space; a text always converts to a
    string. *)
Lemma handleSubmit_eq query (st : state) :
  App.handleSubmit query st
    = if truthy (VStr (trim query))
      then (fst (App.Store.searchVideos_begin (VStr query)
                   (field st "selectedSources") st),
            Some (snd (App.Store.searchVideos_begin (VStr query)
                         (field st "selectedSources") st)))
      else (st, None).
Proof.
  unfold App.handleSubmit, App.handleSearch.
  by rewrite embedded_searchVideos_begin_eq.
Qed.

Lemma fetchSources_settle_frame s (st : state) k :
  k ∉ ["isLoadingSources"; "error"; "availableSources"] ->
  VideoStore.fetchSources_settle s st !! k = st !! k.
Proof.
  intros Hk. unfold VideoStore.fetchSources_settle.
  destruct (VideoStore.fetchedSources s); apply lookup_set_None; not_in_partial.
Qed.

(** The events that are not clicks on the filter buttons leave the
    selection as it is. *)
Lemma handle_keeps_selection e (st : state) :
  e <> App.ClickAllSources -> (forall name, e <> App.ClickSource name) ->
  exists st', App.handle e st = Some st' /\
              field st' "selectedSources" = field st "selectedSources".
Proof.
  intros Hall Hsrc. destruct e as [|s|query|query s| |name|video| |]; simpl;
    try done; try (by destruct (Hsrc name)); eexists; (split; [done|]);
    unfold field; f_equal.
  - apply lookup_set_None. not_in_partial.
  - by apply fetchSources_settle_frame, (bool_decide_unpack _).
  - rewrite handleSubmit_eq. destruct (truthy _); [|done].
    by apply embedded_searchVideos_begin_frame, (bool_decide_unpack _).
  - by apply searchVideos_settle_frame, (bool_decide_unpack _).
  - by apply selectVideo_changes_only.
  - by apply selectVideo_changes_only.
  - apply lookup_set_None. not_in_partial.
Qed.

Lemma includes_slugs slugs name :
  includes (VStr <$> slugs) name = bool_decide (name ∈ slugs).
Proof.
  unfold includes. induction slugs as [|s slugs IH]; [done|].
  rewrite fmap_cons. cbn [existsb is_string]. rewrite IH.
  destruct (String.eqb_spec s name) as [->|Hne].
  - simpl. symmetry. apply bool_decide_eq_true. left.
  - simpl. apply bool_decide_ext. rewrite elem_of_cons.
    split; [by right|]. intros [Heq|Hin]; [congruence|done].
Qed.

Lemma without_slugs slugs name :
  without (VStr <$> slugs) name
    = VStr <$> List.filter (fun s => negb (String.eqb s name)) slugs.
Proof.
  unfold without. induction slugs as [|s slugs IH]; [done|].
  rewrite fmap_cons. cbn [List.filter is_string]. rewrite IH.
  by destruct (String.eqb s name).
Qed.




Lemma truthy_length {A} (l : list A) :
  truthy (VNum (Z.of_nat (length l))) = bool_decide (l <> []).
Proof. by destruct l. Qed.



Lemma initial_selection : selection_ok VideoStore.initial.
Proof. by left. Qed.




Lemma trim_empty : trim "" = "".
Proof. reflexivity. Qed.

Lemma truthy_string s : truthy (VStr s) = true <-> s <> "".
Proof.
  simpl. destruct (String.eqb_spec s ""); simpl; split; congruence.
Qed.

(** C4, amended: a submit issues a search request exactly when the text
    of the input has a character that is not white space; the query of
    the request is then that text as typed (not trimmed), so it is not
    empty, and it is a non-empty trimmed string whenever the text was
    typed without white space around it. *)
Theorem handleSubmit_query :
  forall (query : string) (st : state),
    (forall rq, snd (App.handleSubmit query st) = Some rq ->
       query_of rq = VStr query /\ query <> "" /\ trim query <> "" /\
       (trim query = query -> trimmed_nonempty query)) /\
    (trim query = "" -> snd (App.handleSubmit query st) = None) /\
    (trim query <> "" -> exists rq, snd (App.handleSubmit query st) = Some rq).
Proof.
  intros query st. rewrite handleSubmit_eq.
  destruct (truthy (VStr (trim query))) eqn:Ht.
  - apply truthy_string in Ht. simpl. split; [|split].
    + intros rq [= <-]. split; [done|].
      assert (query <> "") by (intros ->; by rewrite trim_empty in Ht).
      by repeat split.
    + congruence.
    + by eexists.
  - simpl. split; [done|]. split; [done|].
    intros Hne. apply truthy_string in Hne. congruence.
Qed.

(** * The two copies of the store *)

Lemma agree_set skip (p1 p2 : gmap string value) (a b : state) :
  (forall k, k ∈ shared_fields -> k ∉ skip -> p1 !! k = p2 !! k) ->
  agree_except skip a b ->
  agree_except skip (set p1 a) (set p2 b).
Proof.
  intros Hp Hab k Hk Hskip. unfold set.
  by rewrite !lookup_union, (Hp k Hk Hskip), (Hab k Hk Hskip).
Qed.

Lemma agree_set_l skip (p : gmap string value) (a b : state) :
  (forall k, k ∈ shared_fields -> k ∉ skip -> p !! k = None) ->
  agree_except skip a b ->
  agree_except skip (set p a) b.
Proof.
  intros Hp Hab k Hk Hskip. unfold set.
  rewrite lookup_union_r by auto. by apply Hab.
Qed.

(** Going through the common fields one by one; a field of [skip] is
    dismissed, the others are looked up in the two literal partial
    states. *)
Ltac by_field :=
  let k := fresh "k" in
  let Hk := fresh "Hk" in
  let Hskip := fresh "Hskip" in
  intros k Hk Hskip;
  repeat (apply elem_of_cons in Hk as [->|Hk]);
  [..|by apply elem_of_nil in Hk];
  first [reflexivity | exfalso; apply Hskip; by left].

Lemma or_message d m :
  truthy d || String.eqb m "" = true ->
  or (or d (VStr m)) (VStr "Search failed") = or d (VStr "Search failed").
Proof.
  unfold or. destruct (truthy d) eqn:Hd; simpl.
  - by rewrite Hd.
  - by intros ->.
Qed.

Lemma initial_agree : agree VideoStore.initial App.Store.initial.
Proof. unfold agree. by_field. Qed.

(** The step of the store module for an action whose logs convert. *)
Lemma step_eq a (st : state) :
  logs_convert a = true ->
  VideoStore.step a st
    = match a with
      | SearchVideos query sources =>
          set {[ "isLoading" := VBool true; "error" := VNull;
                 "searchQuery" := query ]} st
      | SearchVideosSettled _ (Fulfilled r) =>
          if nullish (data r)
          then set {[ "error" := or (VStr (cannot_read (data r) "results"))
                                    (VStr "Search failed");
                      "isLoading" := VBool false; "results" := VArr [] ]} st
          else set {[ "results" := results_of r; "isLoading" := VBool false ]} st
      | SearchVideosSettled _ (Rejected e) =>
          set {[ "error" := VideoStore.errorMessage "Search failed" e;
                 "isLoading" := VBool false; "results" := VArr [] ]} st
      | SelectVideo video => set {[ "selectedVideo" := video ]} st
      | ClearResults => VideoStore.clearResults st
      | SetLoading loading => set {[ "isLoading" := loading ]} st
      | SetError error => set {[ "error" := error ]} st
      | SetSearchQuery query => set {[ "searchQuery" := query ]} st
      | SetSelectedSources sources => set {[ "selectedSources" := sources ]} st
      | FetchSources =>
          set {[ "isLoadingSources" := VBool true; "error" := VNull ]} st
      | FetchSourcesSettled (Fulfilled r) =>
          if nullish (data r)
          then set {[ "error" := or (VStr (cannot_read (data r) "sources"))
                                    (VStr "Failed to fetch sources");
                      "isLoadingSources" := VBool false ]} st
          else set {[ "availableSources" := sources_of r;
                      "isLoadingSources" := VBool false ]} st
      | FetchSourcesSettled (Rejected e) =>
          set {[ "error" := VideoStore.errorMessage "Failed to fetch sources" e;
                 "isLoadingSources" := VBool false ]} st
      end.
Proof.
  intros Ha. destruct a as [query sources|query s| | | | | | | |s]; simpl in *.
  - unfold after. by rewrite searchVideos_begin_eq, Ha.
  - destruct s as [r|e]; apply andb_true_iff in Ha as [Hq Ha].
    + destruct (nullish (data r)) eqn:Hnull.
      * by apply searchVideos_settle_null.
      * apply searchVideos_settle_Fulfilled; [done|]. simpl. by rewrite Hnull.
    + by rewrite searchVideos_settle_Rejected, Ha.
  - by rewrite selectVideo_eq, Ha.
  - done.
  - by rewrite setLoading_eq, Ha.
  - by rewrite setError_eq, Ha.
  - by rewrite setSearchQuery_eq, Ha.
  - done.
  - done.
  - unfold VideoStore.fetchSources_settle. rewrite fetchedSources_eq.
    destruct s as [r|e]; [|done]. destruct (nullish (data r)); [done|].
    simpl in Ha. by rewrite Ha.
Qed.

Lemma embedded_step_eq a (st : state) :
  App.Store.step a st
    = match a with
      | SearchVideos query sources =>
          set {[ "isLoading" := VBool true; "error" := VNull;
                 "searchQuery" := query ]} st
      | SearchVideosSettled _ s => App.Store.searchVideos_settle s st
      | SelectVideo video => set {[ "selectedVideo" := video ]} st
      | ClearResults => App.Store.clearResults st
      | SetLoading loading => set {[ "isLoading" := loading ]} st
      | SetError error => set {[ "error" := error ]} st
      | SetSearchQuery query => set {[ "searchQuery" := query ]} st
      | SetSelectedSources sources => set {[ "selectedSources" := sources ]} st
      | FetchSources => st
      | FetchSourcesSettled (Fulfilled r) =>
          if nullish (data r) then st
          else set {[ "availableSources" := sources_of r ]} st
      | FetchSourcesSettled (Rejected e) => st
      end.
Proof.
  destruct a as [query sources|query s| | | | | | | |s]; try done. simpl.
  unfold App.Store.fetchSources_settle. rewrite embedded_fetchedSources_eq.
  destruct s as [r|e]; [|done]. by destruct (nullish (data r)).
Qed.

Lemma step_agree_except_error a s1 s2 :
  logs_convert a = true ->
  agree_except ["error"] s1 s2 ->
  agree_except ["error"] (VideoStore.step a s1) (App.Store.step a s2).
Proof.
  intros Ha Hs. rewrite step_eq, embedded_step_eq by done.
  destruct a as [query sources|query s| | | | | | | |s];
    try (apply agree_set; [by_field|done]).
  - rewrite embedded_searchVideos_settle_eq.
    destruct s as [r|e]; [destruct (nullish (data r))|];
      (apply agree_set; [by_field|done]).
  - apply agree_set_l; [by_field|done].
  - destruct s as [r|e]; [destruct (nullish (data r))|].
    + apply agree_set_l; [by_field|done].
    + apply agree_set; [by_field|done].
    + apply agree_set_l; [by_field|done].
Qed.

Lemma step_agree a s1 s2 :
  logs_convert a = true -> same_error a = true -> agree s1 s2 ->
  agree (VideoStore.step a s1) (App.Store.step a s2).
Proof.
  unfold agree. intros Ha He Hs. rewrite step_eq, embedded_step_eq by done.
  destruct a as [query sources|query s| | | | | | | |s];
    try (apply agree_set; [by_field|done]); try discriminate He.
  - rewrite embedded_searchVideos_settle_eq.
    destruct s as [r|e]; simpl in He.
    + apply negb_true_iff in He. rewrite He. apply agree_set; [by_field|done].
    + unfold VideoStore.errorMessage. rewrite or_message by done.
      apply agree_set; [by_field|done].
  - destruct s as [r|e]; [|discriminate He].
    simpl in He. apply negb_true_iff in He. rewrite He.
    apply agree_set; [by_field|done].
Qed.

Lemma issues_agree a s1 s2 :
  logs_convert a = true -> VideoStore.issues a s1 = App.Store.issues a s2.
Proof.
  intros Ha. destruct a; try done. simpl in *.
  by rewrite searchVideos_begin_eq, Ha.
Qed.

(** An action of the store module whose log throws before its [set]
    leaves the state as it was. *)
Lemma step_throws a (st : state) :
  match a with
  | SearchVideos query _ => convertible query = false
  | SelectVideo video => convertible (VideoStore.title_or_None video) = false
  | SetLoading v | SetError v | SetSearchQuery v => convertible v = false
  | _ => False
  end ->
  VideoStore.step a st = st /\ VideoStore.issues a st = None.
Proof.
  destruct a as [query sources|query s| | | | | | | |s]; try done; simpl; intros Ha.
  - unfold after. by rewrite searchVideos_begin_eq, Ha.
  - by rewrite selectVideo_eq, Ha.
  - by rewrite setLoading_eq, Ha.
  - by rewrite setError_eq, Ha.
  - by rewrite setSearchQuery_eq, Ha.
Qed.

(** C8, amended: the two stores start from states that agree on the
    fields they share.  For every action in which the values that the
    store module logs convert to strings, the two stores issue the same
    requests and stay in agreement on the shared fields other than
    [error]; they stay in agreement on [error] too for [selectVideo],
    [clearResults], the setters and the first step of [searchVideos],
    for a search that succeeds with a body that is not [null] or fails
    with a [detail] (or with an empty message), and for sources that
    arrive with a body that is not [null].  (The store module alone has
    [isLoadingSources], clears [error] when [fetchSources] starts and
    records its failure.)  When the value that [searchVideos],
    [selectVideo] or a setter of the store module logs first has no
    conversion, that action throws, changes nothing and issues nothing,
    where the copy in [App.js] goes on. *)
Theorem stores_agree :
  agree VideoStore.initial App.Store.initial /\
  (forall a s1 s2,
     logs_convert a = true ->
     agree_except ["error"] s1 s2 ->
     agree_except ["error"] (VideoStore.step a s1) (App.Store.step a s2)) /\
  (forall a s1 s2,
     logs_convert a = true -> same_error a = true -> agree s1 s2 ->
     agree (VideoStore.step a s1) (App.Store.step a s2)) /\
  (forall a s1 s2,
     logs_convert a = true -> VideoStore.issues a s1 = App.Store.issues a s2) /\
  (forall a st,
     match a with
     | SearchVideos query _ => convertible query = false
     | SelectVideo video => convertible (VideoStore.title_or_None video) = false
     | SetLoading v | SetError v | SetSearchQuery v => convertible v = false
     | _ => False
     end ->
     VideoStore.step a st = st /\ VideoStore.issues a st = None).
Proof.
  split; [apply initial_agree|]. split; [apply step_agree_except_error|].
  split; [apply step_agree|]. split; [apply issues_agree|apply step_throws].
Qed.

(** * The rest of the store *)

(** X1: the setters.  In the copy in [App.js], [setLoading],
    [setError], [setSearchQuery] and [setSelectedSources] give their own
    field the value they are called with, whatever that value is, and
    leave every other field as it was; so does [setSelectedSources] of
    the store module.  The other three setters of the store module do
    as those of the copy when the value converts to a string; for a
    value without a conversion they throw in their log and leave the
    whole state as it was. *)
Theorem setters_frame :
  sets_only "selectedSources" VideoStore.setSelectedSources /\
  sets_only "isLoading" App.Store.setLoading /\
  sets_only "error" App.Store.setError /\
  sets_only "searchQuery" App.Store.setSearchQuery /\
  sets_only "selectedSources" App.Store.setSelectedSources /\
  (forall (v : value) (st : state),
     after (VideoStore.setLoading v) st
       = (if convertible v then App.Store.setLoading v st else st) /\
     after (VideoStore.setError v) st
       = (if convertible v then App.Store.setError v st else st) /\
     after (VideoStore.setSearchQuery v) st
       = (if convertible v then App.Store.setSearchQuery v st else st)).
Proof.
  repeat split; try (by apply set_singleton_only);
    try (intros; by apply set_singleton_only).
  - apply setLoading_eq.
  - apply setError_eq.
  - apply setSearchQuery_eq.
Qed.

(** The whole of [searchVideos], by its two steps. *)
Lemma searchVideos_eq query sources s (st : state) :
  VideoStore.searchVideos query sources s st
    = if convertible query
      then after (VideoStore.searchVideos_settle query s)
             (set {[ "isLoading" := VBool true; "error" := VNull;
                     "searchQuery" := query ]} st)
      else st.
Proof.
  unfold VideoStore.searchVideos. rewrite searchVideos_begin_eq.
  by destruct (convertible query).
Qed.

Lemma after_searchVideos_begin query sources (st : state) :
  after (VideoStore.searchVideos_begin query sources) st
    = if convertible query
      then set {[ "isLoading" := VBool true; "error" := VNull;
                  "searchQuery" := query ]} st
      else st.
Proof.
  unfold after. rewrite searchVideos_begin_eq. by destruct (convertible query).
Qed.

(** X2: [searchVideos] never changes a field other than [isLoading],
    [error], [searchQuery] and [results] (so the selected video, the
    selection and the list of sources stay), however the request ends;
    it records the query in [searchQuery] (the store module when the
    query converts to a string: otherwise it throws before its first
    [set] and changes nothing); and its first step keeps the results of
    the previous search, which stay in the store until the request
    settles. *)
Theorem searchVideos_frame :
  forall (query sources : value) (s : settled) (st : state),
    (forall k, k ∉ ["isLoading"; "error"; "searchQuery"; "results"] ->
       VideoStore.searchVideos query sources s st !! k = st !! k /\
       App.Store.searchVideos query sources s st !! k = st !! k) /\
    App.Store.searchVideos query sources s st !! "searchQuery" = Some query /\
    VideoStore.searchVideos query sources s st !! "searchQuery"
      = (if convertible query then Some query else st !! "searchQuery") /\
    (convertible query = false -> VideoStore.searchVideos query sources s st = st) /\
    after (VideoStore.searchVideos_begin query sources) st !! "results"
      = st !! "results" /\
    fst (App.Store.searchVideos_begin query sources st) !! "results"
      = st !! "results".
Proof.
  intros query sources s st. rewrite searchVideos_eq.
  split; [|split; [|split; [|split; [|split]]]].
  - intros k Hk. unfold App.Store.searchVideos. split.
    + destruct (convertible query); [|done].
      rewrite searchVideos_settle_frame by set_solver.
      apply lookup_set_None. not_in_partial.
    + rewrite embedded_searchVideos_settle_frame by set_solver.
      by rewrite embedded_searchVideos_begin_frame by set_solver.
  - unfold App.Store.searchVideos.
    rewrite embedded_searchVideos_settle_frame by by apply (bool_decide_unpack _).
    by apply lookup_set_Some.
  - destruct (convertible query); [|done].
    rewrite searchVideos_settle_frame by by apply (bool_decide_unpack _).
    by apply lookup_set_Some.
  - by intros ->.
  - by apply searchVideos_begin_frame, (bool_decide_unpack _).
  - by apply embedded_searchVideos_begin_frame, (bool_decide_unpack _).
Qed.


Lemma errorMessage_cases e :
  VideoStore.errorMessage "Search failed" e
    = if truthy (detail e) then detail e
      else if String.eqb (message e) "" then VStr "Search failed"
           else VStr (message e).
Proof.
  unfold VideoStore.errorMessage, or. destruct (truthy (detail e)) eqn:Hd.
  - by rewrite Hd.
  - simpl. by destruct (String.eqb (message e) "").
Qed.

(** X4: the message [searchVideos] reports, when the query converts to
    a string.  For a rejected request the store module takes the
    [detail] of the server's answer when there is one, else the message
    of the error when it is not empty, else ["Search failed"], and
    stores it when it converts to a string (otherwise it throws in its
    [catch] and [error] stays as it was); the copy in [App.js] takes the
    [detail] or ["Search failed"].  A response whose body is [null] or
    [undefined] is handled as a failure too: the results are emptied,
    and the message is that of the failed read in the store module and
    ["Search failed"] in the copy.  So is, in the store module alone, a
    response whose results have a length without a conversion: the
    message is that of the failed conversion, where the copy stores the
    results. *)
Theorem searchVideos_error_message :
  forall (query : value) (st : state),
    convertible query = true ->
    (forall e,
       let msg := if truthy (detail e) then detail e
                  else if String.eqb (message e) "" then VStr "Search failed"
                       else VStr (message e) in
       field (after (VideoStore.searchVideos_settle query (Rejected e)) st) "error"
         = (if convertible msg then msg else field st "error") /\
       field (App.Store.searchVideos_settle (Rejected e) st) "error"
         = (if truthy (detail e) then detail e else VStr "Search failed")) /\
    (forall r, nullish (data r) = true ->
       let st1 := after (VideoStore.searchVideos_settle query (Fulfilled r)) st in
       let st2 := App.Store.searchVideos_settle (Fulfilled r) st in
       field st1 "error"
         = or (VStr (cannot_read (data r) "results")) (VStr "Search failed") /\
       field st2 "error" = VStr "Search failed" /\
       field st1 "results" = VArr [] /\ field st2 "results" = VArr []) /\
    (forall r, nullish (data r) = false ->
       convertible (len (results_of r)) = false ->
       let st1 := after (VideoStore.searchVideos_settle query (Fulfilled r)) st in
       let st2 := App.Store.searchVideos_settle (Fulfilled r) st in
       field st1 "error"
         = or (VStr (cannot_convert (len (results_of r)))) (VStr "Search failed") /\
       field st1 "results" = VArr [] /\
       field st2 "error" = field st "error" /\
       field st2 "results" = results_of r).
Proof.
  intros query st Hq. split; [|split].
  - intros e msg. subst msg. rewrite <- !errorMessage_cases.
    rewrite searchVideos_settle_Rejected, embedded_searchVideos_settle_eq by done.
    split.
    + destruct (convertible (VideoStore.errorMessage "Search failed" e)); [|done].
      by apply field_set_Some.
    + by erewrite field_set_Some by reflexivity.
  - intros r Hnull st1 st2. subst st1 st2.
    rewrite searchVideos_settle_null, embedded_searchVideos_settle_eq, Hnull by done.
    do 2 erewrite (field_set_Some _ _ "error") by reflexivity.
    do 2 erewrite (field_set_Some _ _ "results") by reflexivity.
    by repeat split.
  - intros r Hnull Hlen st1 st2. subst st1 st2.
    rewrite searchVideos_settle_length, embedded_searchVideos_settle_eq, Hnull by done.
    erewrite (field_set_Some _ _ "error") by reflexivity.
    do 2 erewrite (field_set_Some _ _ "results") by reflexivity.
    rewrite field_set_None by done. by repeat split.
Qed.

(** When the query converts and the [catch] gets past its log, the
    second step sets the same fields from whatever state it runs in. *)
Lemma searchVideos_settle_reported query s :
  convertible query = true -> reported s = true ->
  (results_arrive s = true /\
   exists results, forall st : state,
     after (VideoStore.searchVideos_settle query s) st
       = set {[ "results" := results; "isLoading" := VBool false ]} st) \/
  (results_arrive s = false /\
   exists msg, forall st : state,
     after (VideoStore.searchVideos_settle query s) st
       = set {[ "error" := msg; "isLoading" := VBool false;
                "results" := VArr [] ]} st).
Proof.
  intros Hq Hr. destruct s as [r|e].
  - destruct (results_arrive (Fulfilled r)) eqn:Ha.
    + left. split; [done|]. eexists. intros st.
      by apply searchVideos_settle_Fulfilled.
    + right. split; [done|]. simpl in Ha.
      destruct (nullish (data r)) eqn:Hnull.
      * eexists. intros st. by apply searchVideos_settle_null.
      * eexists. intros st. by apply searchVideos_settle_length.
  - right. split; [done|]. eexists. intros st.
    rewrite searchVideos_settle_Rejected by done. simpl in Hr. by rewrite Hr.
Qed.

(** X5: two searches in flight, for queries that convert to strings and
    failures whose messages do.  When a second search is started before
    the first has settled and the answer to the first arrives last, the
    store ends with the query of the second search in [searchQuery] and
    the results of the first in [results]; [isLoading] is false as soon
    as one of the answers has arrived; and if the first search succeeds
    after the second has failed, the error of the second stays beside
    the results of the first. *)
Theorem overlapping_searches :
  forall (q1 s1 q2 s2 : value) (o1 o2 : settled) (st : state),
    convertible q1 = true -> convertible q2 = true ->
    reported o1 = true -> reported o2 = true ->
    let both :=
      after (VideoStore.searchVideos_begin q2 s2)
        (after (VideoStore.searchVideos_begin q1 s1) st) in
    let st' :=
      after (VideoStore.searchVideos_settle q1 o1)
        (after (VideoStore.searchVideos_settle q2 o2) both) in
    field st' "searchQuery" = q2 /\
    field st' "results" = field (VideoStore.searchVideos q1 s1 o1 st) "results" /\
    field st' "isLoading" = VBool false /\
    field (after (VideoStore.searchVideos_settle q2 o2) both) "isLoading"
      = VBool false /\
    (results_arrive o1 = true ->
     field st' "error" = field (VideoStore.searchVideos q2 s2 o2 st) "error").
Proof.
  intros q1 s1 q2 s2 o1 o2 st Hq1 Hq2 Hr1 Hr2 both st'. subst st' both.
  rewrite !searchVideos_eq, !after_searchVideos_begin, Hq1, Hq2.
  split; [|split; [|split; [|split]]].
  - unfold field.
    do 2 rewrite searchVideos_settle_frame by by apply (bool_decide_unpack _).
    by erewrite lookup_set_Some by reflexivity.
  - destruct (searchVideos_settle_reported q1 o1 Hq1 Hr1)
      as [(_ & results & Ho1)|(_ & msg & Ho1)]; rewrite !Ho1;
      by do 2 erewrite (field_set_Some _ _ "results") by reflexivity.
  - destruct (searchVideos_settle_reported q1 o1 Hq1 Hr1)
      as [(_ & results & Ho1)|(_ & msg & Ho1)]; rewrite !Ho1;
      by apply field_set_Some.
  - destruct (searchVideos_settle_reported q2 o2 Hq2 Hr2)
      as [(_ & results & Ho2)|(_ & msg & Ho2)]; rewrite !Ho2;
      by apply field_set_Some.
  - intros Ha.
    destruct (searchVideos_settle_reported q1 o1 Hq1 Hr1)
      as [(_ & results & Ho1)|(Hno & _)]; [|congruence].
    rewrite Ho1, field_set_None by done.
    destruct (searchVideos_settle_reported q2 o2 Hq2 Hr2)
      as [(_ & results2 & Ho2)|(_ & msg & Ho2)]; rewrite !Ho2.
    + rewrite !(field_set_None {[ "results" := results2; "isLoading" := VBool false ]}
                  _ "error") by done.
      by rewrite !(field_set_Some _ _ "error" VNull) by reflexivity.
    + by rewrite !(field_set_Some _ _ "error" msg) by reflexivity.
Qed.

Lemma set_back k v v' (st : state) :
  st !! k = Some v -> set {[ k := v ]} (set {[ k := v' ]} st) = st.
Proof.
  intros Hk. apply map_eq. intros k'. destruct (decide (k' = k)) as [->|Hne].
  - rewrite Hk. apply lookup_set_Some. apply lookup_singleton_eq.
  - by rewrite !lookup_set_None by by apply lookup_singleton_ne.
Qed.

Lemma set_same k v (st : state) :
  st !! k = Some v -> set {[ k := v ]} st = st.
Proof.
  intros Hk. apply map_eq. intros k'. destruct (decide (k' = k)) as [->|Hne].
  - rewrite Hk. apply lookup_set_Some. apply lookup_singleton_eq.
  - by rewrite lookup_set_None by by apply lookup_singleton_ne.
Qed.

(** X6: opening a video and going back.  From a state in which no video
    is selected, a click on a video followed by a click on Back gives
    the state from before the click, field for field. *)
Theorem select_video_then_back :
  forall (video : value) (st : state),
    st !! "selectedVideo" = Some VNull ->
    App.run [App.ClickVideo video; App.ClickBack] st = Some st /\
    App.Store.selectVideo VNull (App.Store.selectVideo video st) = st.
Proof.
  intros video st Hnone. cbn [App.run App.handle].
  rewrite selectVideo_null, selectVideo_eq. unfold App.Store.selectVideo.
  destruct (convertible (VideoStore.title_or_None video)).
  - by rewrite set_back.
  - by rewrite set_same, set_back.
Qed.

(** X17: Clear does not cancel a pending search.  When the results are
    cleared while the request of a search is pending (the query of the
    search converting to a string, as does the message if the request
    fails), [isLoading] stays true, and when the request settles its
    results are stored as for any search, while [searchQuery] stays
    empty. *)
Theorem clear_while_loading :
  forall (query sources : value) (s : settled) (st : state),
    convertible query = true -> reported s = true ->
    let cleared :=
      VideoStore.clearResults
        (after (VideoStore.searchVideos_begin query sources) st) in
    let st' := after (VideoStore.searchVideos_settle query s) cleared in
    field cleared "isLoading" = VBool true /\
    field cleared "results" = VArr [] /\
    field st' "isLoading" = VBool false /\
    field st' "searchQuery" = VStr "" /\
    field st' "results" = field (VideoStore.searchVideos query sources s st) "results".
Proof.
  intros query sources s st Hq Hr cleared st'. subst st' cleared.
  rewrite searchVideos_eq, !after_searchVideos_begin, Hq.
  split; [|split; [|split; [|split]]].
  - unfold VideoStore.clearResults. rewrite field_set_None by done.
    by apply field_set_Some.
  - by apply field_set_Some.
  - destruct (searchVideos_settle_reported query s Hq Hr)
      as [(_ & results & Hs)|(_ & msg & Hs)]; rewrite !Hs;
      by apply field_set_Some.
  - unfold field.
    rewrite searchVideos_settle_frame by by apply (bool_decide_unpack _).
    unfold VideoStore.clearResults.
    by erewrite lookup_set_Some by reflexivity.
  - destruct (searchVideos_settle_reported query s Hq Hr)
      as [(_ & results & Hs)|(_ & msg & Hs)]; rewrite !Hs;
      by do 2 erewrite (field_set_Some _ _ "results") by reflexivity.
Qed.

(** * The rest of the search bar *)

Lemma selectedSources_lookup (st : state) items :
  field st "selectedSources" = VArr items ->
  st !! "selectedSources" = Some (VArr items).
Proof.
  unfold field. destruct (st !! "selectedSources"); simpl; [by intros ->|done].
Qed.

(** The handler of a source button, on an explicit selection. *)
Lemma source_onClick_slugs name slugs (st : state) :
  field st "selectedSources" = VArr (VStr <$> slugs) -> "all" ∉ slugs ->
  App.source_onClick name st
    = Some (VideoStore.setSelectedSources (VArr (VStr <$> toggled name slugs)) st).
Proof.
  intros Hslugs Hall. unfold App.source_onClick, toggled.
  rewrite Hslugs, !includes_slugs, (bool_decide_eq_false_2 _ Hall).
  rewrite truthy_length. destruct (bool_decide (name ∈ slugs)).
  - rewrite without_slugs.
    set (new := List.filter _ slugs).
    rewrite (bool_decide_ext (VStr <$> new <> []) (new <> [])); [by case_bool_decide|].
    by destruct new.
  - replace ((VStr <$> slugs) ++ [VStr name])%list
      with (VStr <$> (slugs ++ [name])%list) by by rewrite fmap_app.
    set (new := (slugs ++ [name])%list).
    rewrite (bool_decide_ext (VStr <$> new <> []) (new <> [])); [by case_bool_decide|].
    by destruct new.
Qed.

(** The handler of a source button, on the sentinel. *)
Lemma source_onClick_sentinel name (st : state) :
  field st "selectedSources" = VArr [VStr "all"] ->
  App.source_onClick name st
    = Some (VideoStore.setSelectedSources (VArr [VStr name]) st).
Proof. intros Hall. unfold App.source_onClick. by rewrite Hall. Qed.

Lemma elem_of_filter_ne name (slugs : list string) s :
  s ∈ List.filter (fun s => negb (String.eqb s name)) slugs <-> s ∈ slugs /\ s <> name.
Proof.
  rewrite !list_elem_of_In, filter_In, negb_true_iff.
  by destruct (String.eqb_spec s name); intuition.
Qed.

Lemma NoDup_filter_ne name (slugs : list string) :
  NoDup slugs -> NoDup (List.filter (fun s => negb (String.eqb s name)) slugs).
Proof.
  induction 1 as [|s slugs Hs Hnd IH]; simpl; [constructor|].
  destruct (negb (String.eqb s name)); [|done].
  constructor; [|done]. rewrite elem_of_filter_ne. tauto.
Qed.

Lemma filter_ne_id name (slugs : list string) :
  name ∉ slugs -> List.filter (fun s => negb (String.eqb s name)) slugs = slugs.
Proof.
  induction slugs as [|s slugs IH]; simpl; [done|].
  rewrite not_elem_of_cons. intros [Hne Hin].
  destruct (String.eqb_spec s name); [congruence|]. simpl. by rewrite IH.
Qed.

Lemma toggled_absent name slugs :
  name ∉ slugs -> toggled name slugs = (slugs ++ [name])%list.
Proof.
  intros Hin. unfold toggled. rewrite (bool_decide_eq_false_2 _ Hin).
  rewrite bool_decide_eq_true_2; [done|]. by destruct slugs.
Qed.

Lemma toggled_present name slugs :
  name ∈ slugs ->
  (toggled name slugs = ["all"] /\ forall s, s ∈ slugs -> s = name) \/
  (toggled name slugs <> [] /\ (name ∉ toggled name slugs) /\
   forall s, s ∈ toggled name slugs <-> s ∈ slugs /\ s <> name).
Proof.
  intros Hin. unfold toggled. rewrite (bool_decide_eq_true_2 _ Hin).
  case_bool_decide as Hnew.
  - right. split; [done|]. split; [|apply elem_of_filter_ne].
    rewrite elem_of_filter_ne. tauto.
  - left. split; [done|]. intros s Hs.
    destruct (decide (s = name)) as [|Hne]; [done|]. exfalso.
    assert (s ∈ List.filter (fun s => negb (String.eqb s name)) slugs)
      as Hf by by apply elem_of_filter_ne.
    rewrite Hnew in Hf. by apply elem_of_nil in Hf.
Qed.

Lemma toggled_eq name slugs :
  toggled name slugs
    = if bool_decide (name ∈ slugs)
      then (if bool_decide (List.filter (fun s => negb (String.eqb s name)) slugs = [])
            then ["all"]
            else List.filter (fun s => negb (String.eqb s name)) slugs)
      else (slugs ++ [name])%list.
Proof.
  unfold toggled. destruct (bool_decide (name ∈ slugs)).
  - by repeat case_bool_decide.
  - case_bool_decide as Hne; [done|]. by destruct slugs.
Qed.

(** X7: a click on the button of a source toggles that source and no
    other.  On an explicit selection, a source that is not selected is
    put last; one that is selected is taken out, the others staying as
    they were, each in its place, and when no other is left the
    selection becomes [["all"]]; on the selection [["all"]], the clicked
    source becomes the only one selected.  No other field of the store
    changes. *)
Theorem source_onClick_toggles :
  forall (name : string) (st : state),
    (forall slugs,
       field st "selectedSources" = VArr (VStr <$> slugs) -> "all" ∉ slugs ->
       exists st',
         App.source_onClick name st = Some st' /\
         (forall k, k <> "selectedSources" -> st' !! k = st !! k) /\
         let others := List.filter (fun s => negb (String.eqb s name)) slugs in
         field st' "selectedSources"
           = VArr (VStr <$> (if bool_decide (name ∈ slugs)
                             then (if bool_decide (others = []) then ["all"] else others)
                             else (slugs ++ [name])%list))) /\
    (field st "selectedSources" = VArr [VStr "all"] ->
     exists st',
       App.source_onClick name st = Some st' /\
       field st' "selectedSources" = VArr [VStr name] /\
       forall k, k <> "selectedSources" -> st' !! k = st !! k).
Proof.
  intros name st. split.
  - intros slugs Hslugs Hall. eexists.
    split; [by apply source_onClick_slugs|].
    split; [apply set_singleton_only|].
    cbv zeta. rewrite <- toggled_eq.
    by apply field_set_Some, lookup_singleton_eq.
  - intros Hall. eexists. split; [by apply source_onClick_sentinel|].
    split; [by apply field_set_Some, lookup_singleton_eq|apply set_singleton_only].
Qed.

(** X8: clicking twice on the button of a source that is not selected
    (on the selection [["all"]], or on an explicit selection without
    that source) gives back the state from before the two clicks, field
    for field. *)
Theorem source_onClick_twice :
  forall (name : string) (st : state),
    selection_ok st -> name <> "all" ->
    View.source_active name st = Some false ->
    exists st1,
      App.source_onClick name st = Some st1 /\
      App.source_onClick name st1 = Some st.
Proof.
  intros name st [Hall|(slugs & Hne & Hall & Hslugs)] Hname Hactive.
  - rewrite (source_onClick_sentinel _ _ Hall). eexists. split; [done|].
    rewrite (source_onClick_slugs name [name]).
    + unfold toggled.
      rewrite (bool_decide_eq_true_2 (name ∈ [name]))
        by by apply list_elem_of_singleton.
      simpl. rewrite String.eqb_refl. simpl. f_equal.
      unfold VideoStore.setSelectedSources.
      apply set_back. by apply selectedSources_lookup.
    + by apply field_set_Some, lookup_singleton_eq.
    + rewrite list_elem_of_singleton. congruence.
  - unfold View.source_active in Hactive.
    rewrite Hslugs, !includes_slugs, (bool_decide_eq_false_2 _ Hall) in Hactive.
    injection Hactive as Hactive. rewrite andb_true_r in Hactive.
    apply bool_decide_eq_false in Hactive.
    rewrite (source_onClick_slugs _ _ _ Hslugs Hall), toggled_absent by done.
    eexists. split; [done|].
    rewrite (source_onClick_slugs name (slugs ++ [name])).
    + unfold toggled.
      rewrite (bool_decide_eq_true_2 (name ∈ (slugs ++ [name])%list))
        by (rewrite elem_of_app, list_elem_of_singleton; by right).
      rewrite List.filter_app, filter_ne_id by done. simpl.
      rewrite String.eqb_refl. simpl. rewrite app_nil_r.
      rewrite bool_decide_eq_true_2 by done. f_equal.
      unfold VideoStore.setSelectedSources.
      apply set_back. by apply selectedSources_lookup.
    + by apply field_set_Some, lookup_singleton_eq.
    + rewrite elem_of_app, list_elem_of_singleton.
      intros [Hin|Heq]; [done|congruence].
Qed.

Lemma toggled_distinct name slugs :
  name <> "all" -> "all" ∉ slugs -> NoDup slugs ->
  toggled name slugs = ["all"] \/
  (toggled name slugs <> [] /\ ("all" ∉ toggled name slugs) /\
   NoDup (toggled name slugs)).
Proof.
  intros Hname Hall Hnd. unfold toggled.
  destruct (decide (name ∈ slugs)) as [Hin|Hin].
  - rewrite (bool_decide_eq_true_2 _ Hin).
    case_bool_decide; [right|by left]. split; [done|]. split.
    + rewrite elem_of_filter_ne. tauto.
    + by apply NoDup_filter_ne.
  - rewrite (bool_decide_eq_false_2 _ Hin).
    case_bool_decide; [right|by left]. split; [done|]. split.
    + rewrite elem_of_app, list_elem_of_singleton.
      intros [?|?]; [done|congruence].
    + apply NoDup_app. split; [done|]. split.
      * by intros s Hs ->%list_elem_of_singleton.
      * apply NoDup_singleton.
Qed.

Lemma selection_distinct_same (st st' : state) :
  field st' "selectedSources" = field st "selectedSources" ->
  selection_distinct st -> selection_distinct st'.
Proof. unfold selection_distinct. by intros ->. Qed.

Lemma handle_distinct e (st : state) :
  e <> App.ClickSource "all" -> selection_distinct st ->
  exists st', App.handle e st = Some st' /\ selection_distinct st'.
Proof.
  intros He Hst.
  destruct e as [|s|query|query s| |name|video| |];
    try (match goal with
         | |- context [App.handle ?e _] =>
             destruct (handle_keeps_selection e st) as (st' & Hh & Hf);
             [done|by intros ?|]
         end;
         exists st'; split; [done|]; by apply (selection_distinct_same st)).
  - eexists. split; [done|]. left. by apply field_set_Some.
  - simpl. destruct (App.clickable name st); [|by eexists].
    assert (name <> "all") as Hname by congruence.
    destruct Hst as [Hsent|(slugs & Hne & Hnot & Hnd & Hslugs)].
    + rewrite (source_onClick_sentinel _ _ Hsent). eexists. split; [done|].
      right. exists [name]. split; [done|].
      split; [rewrite list_elem_of_singleton; congruence|].
      split; [apply NoDup_singleton|].
      by apply field_set_Some.
    + rewrite (source_onClick_slugs _ _ _ Hslugs Hnot). eexists. split; [done|].
      destruct (toggled_distinct name slugs Hname Hnot Hnd) as [->|(H1 & H2 & H3)].
      * left. by apply field_set_Some.
      * right. exists (toggled name slugs). repeat split; try done.
        by apply field_set_Some, lookup_singleton_eq.
Qed.

Lemma run_distinct events (st : state) :
  App.ClickSource "all" ∉ events -> selection_distinct st ->
  exists st', App.run events st = Some st' /\ selection_distinct st'.
Proof.
  revert st. induction events as [|e events IH]; intros st Hall Hst.
  - by exists st.
  - apply not_elem_of_cons in Hall as [He Hall].
    destruct (handle_distinct e st) as (st1 & Hh & Hst1); [done..|].
    simpl. rewrite Hh. by apply IH.
Qed.

Lemma initial_distinct : selection_distinct VideoStore.initial.
Proof. by left. Qed.

(** X9: no source is selected twice.  In every state the page reaches
    from the initial one through its events (no click being on a source
    called "all"), the selection is [["all"]] or a non-empty list of
    slugs that has neither "all" nor a repeated slug. *)
Theorem selectedSources_distinct :
  forall events : list App.event,
    App.ClickSource "all" ∉ events ->
    exists st, App.run events VideoStore.initial = Some st /\ selection_distinct st.
Proof.
  intros events Hall. apply run_distinct; [done|apply initial_distinct].
Qed.

(** X10: what the page asks of the backend.  In every state the page
    reaches (no click being on a source called "all"), a submit that
    issues a request posts the text of the input, which has a character
    that is not white space, with [page] 1 and [limit] 40, and as
    [sources] the current selection: [["all"]], or a non-empty list of
    distinct slugs without "all". *)
Theorem page_search_requests :
  forall (events : list App.event) (query : string) (st : state) (rq : request),
    App.ClickSource "all" ∉ events ->
    App.run events VideoStore.initial = Some st ->
    View.issued (App.Submit query) st = Some rq ->
    search_request (VStr query) (field st "selectedSources") rq /\
    selection_distinct st /\
    trim query <> "".
Proof.
  intros events query st rq Hall Hrun Hrq.
  destruct (run_distinct events VideoStore.initial Hall initial_distinct)
    as (st' & Hrun' & Hst).
  assert (st' = st) as -> by congruence.
  unfold View.issued in Hrq. rewrite handleSubmit_eq in Hrq.
  destruct (truthy (VStr (trim query))) eqn:Ht; [|done].
  cbn [snd] in Hrq. injection Hrq as <-.
  split; [|split; [done|by apply truthy_string]].
  pose proof (search_request_literal (VStr query)
                (VideoStore.sources_or_default (field st "selectedSources"))) as Hp.
  by destruct Hst as [Hs|(slugs & _ & _ & _ & Hs)]; rewrite Hs in *.
Qed.

Lemma submit_disabled_or isLoading query :
  View.submit_disabled isLoading query
    = truthy isLoading || negb (truthy (VStr (trim query))).
Proof.
  unfold View.submit_disabled, or.
  destruct (truthy isLoading) eqn:Hl; [by rewrite Hl|done].
Qed.

(** X11: the submit button.  When the button is enabled, no search is
    loading and submitting issues a request; for a text that is empty or
    all white space the button is disabled, and submitting changes no
    field of the store and issues nothing; and in the state a submit
    that issued a request leaves, the button and the input are
    disabled, whatever is typed. *)
Theorem submit_button :
  forall (query : string) (st : state),
    (View.submit_disabled (field st "isLoading") query = false ->
     truthy (field st "isLoading") = false /\
     exists rq, snd (App.handleSubmit query st) = Some rq) /\
    (trim query = "" ->
     View.submit_disabled (field st "isLoading") query = true /\
     App.handleSubmit query st = (st, None)) /\
    (forall rq, snd (App.handleSubmit query st) = Some rq ->
       View.input_disabled (field (fst (App.handleSubmit query st)) "isLoading") = true /\
       forall text,
         View.submit_disabled (field (fst (App.handleSubmit query st)) "isLoading") text
           = true).
Proof.
  intros query st. rewrite !submit_disabled_or, handleSubmit_eq.
  unfold View.input_disabled.
  destruct (truthy (VStr (trim query))) eqn:Ht; cbn [fst snd negb].
  - split; [|split].
    + rewrite orb_false_r. intros Hl. split; [done|by eexists].
    + intros Hblank. rewrite Hblank in Ht. discriminate Ht.
    + intros rq _. unfold App.Store.searchVideos_begin. cbn [fst].
      erewrite (field_set_Some _ _ "isLoading") by reflexivity.
      split; [done|]. intros text. by rewrite submit_disabled_or.
  - split; [|split].
    + rewrite orb_true_r. intros [=].
    + intros _. by rewrite orb_true_r.
    + intros rq [=].
Qed.

Lemma VStr_fmap_inj (l1 l2 : list string) :
  VStr <$> l1 = VStr <$> l2 -> l1 = l2.
Proof.
  revert l2. induction l1 as [|s l1 IH]; intros [|s2 l2] [=]; [done|].
  f_equal; auto.
Qed.

(** X12: the highlighted filter buttons.  On a well-formed selection,
    "All Sources" is highlighted exactly when the selection is
    [["all"]], the button of a source exactly when its name is in the
    explicit selection, and never both. *)
Theorem highlighted_buttons :
  forall (st : state),
    selection_ok st ->
    exists all_active : bool,
      View.allSources_active st = Some all_active /\
      (all_active = true <-> field st "selectedSources" = VArr [VStr "all"]) /\
      forall name, exists active : bool,
        View.source_active name st = Some active /\
        (active = true -> all_active = false) /\
        (active = true <->
         exists slugs, field st "selectedSources" = VArr (VStr <$> slugs) /\
                       ("all" ∉ slugs) /\ name ∈ slugs).
Proof.
  intros st [Hall|(slugs & Hne & Hall & Hslugs)];
    unfold View.allSources_active, View.source_active.
  - rewrite Hall. exists true. split; [done|]. split; [done|].
    intros name. exists false. rewrite andb_false_r. split; [done|].
    split; [done|]. split; [done|]. intros (slugs & [= Hs] & Hnot & _).
    destruct slugs as [|s [|? ?]]; simplify_eq/=.
    exfalso. apply Hnot. by apply list_elem_of_singleton.
  - rewrite Hslugs, includes_slugs, (bool_decide_eq_false_2 _ Hall).
    exists false. split; [done|]. split.
    { split; [done|]. intros [= Hs]. destruct slugs as [|s [|? ?]]; simplify_eq/=.
      exfalso. apply Hall. by apply list_elem_of_singleton. }
    intros name. eexists. split; [done|]. split; [done|].
    rewrite includes_slugs, andb_true_r, bool_decide_eq_true. split.
    + intros Hin. by exists slugs.
    + intros (slugs' & [= Hs] & _ & Hin).
      apply VStr_fmap_inj in Hs. by subst.
Qed.

(** * What the page shows *)



Lemma map_throwing_inv {E A B} (f : A -> completion E B) items ys :
  App.map_throwing f items = Normal ys ->
  Forall2 (fun x y => f x = Normal y) items ys.
Proof.
  revert ys. induction items as [|x items IH]; simpl; intros ys.
  - intros [= <-]. constructor.
  - destruct (f x) as [y|] eqn:Hx; [|done]. simpl.
    destruct (App.map_throwing f items) as [ys'|]; [|done]. simpl.
    intros [= <-]. constructor; auto.
Qed.

Lemma source_button_inv source b :
  App.source_button source = Normal b ->
  nullish source = false /\ b = button_of source.
Proof.
  unfold App.source_button, get. destruct (nullish source); [done|].
  simpl. by intros [= <-].
Qed.

Lemma footer_name_label source :
  nullish source = false ->
  View.footer_name source = Normal (App.label (button_of source)).
Proof. intros H. unfold View.footer_name, get. by rewrite H. Qed.

(** X13: the footer and the filter buttons.  Whenever the search bar
    can render its source buttons, the footer counts as many sources as
    there are buttons and lists the texts of the buttons, in the same
    order. *)
Theorem footer_lists_the_buttons :
  forall (availableSources : value) (buttons : list App.button),
    App.source_buttons availableSources = Normal buttons ->
    View.length_of availableSources = Normal (VNum (Z.of_nat (length buttons))) /\
    View.footer_names availableSources = Normal (App.label <$> buttons).
Proof.
  intros availableSources buttons Hb.
  destruct availableSources as [| | | | |sources|]; try done.
  simpl in *. apply map_throwing_inv in Hb.
  split; [by rewrite (Forall2_length _ _ _ Hb)|].
  induction Hb as [|source b sources buttons Hsb _ IH]; [done|].
  apply source_button_inv in Hsb as [Hn ->].
  simpl. by rewrite footer_name_label, IH.
Qed.

Lemma grid_cell_record video :
  nullish video = false -> View.grid_cell video = Normal (cell_of video).
Proof.
  intros H. unfold View.grid_cell, View.VideoCard, get. by rewrite H.
Qed.

Lemma grid_cell_null video :
  nullish video = true -> exists e, View.grid_cell video = Throw e.
Proof. intros H. unfold View.grid_cell, get. rewrite H. by eexists. Qed.



Lemma VideoGrid_cells items isLoading cells c :
  View.VideoGrid (VArr items) isLoading = Normal (View.Cards cells) ->
  c ∈ cells ->
  exists video, video ∈ items /\ nullish video = false /\ c = cell_of video.
Proof.
  unfold View.VideoGrid. destruct (truthy isLoading); [done|].
  cbn [View.length_of bind]. destruct (negb _); [done|].
  destruct (App.map_throwing View.grid_cell items) as [cells'|] eqn:Hmap; [|done].
  simpl. intros [= <-] Hin. apply map_throwing_inv in Hmap.
  induction Hmap as [|video c' items cells' Hc _ IH]; [by apply elem_of_nil in Hin|].
  apply elem_of_cons in Hin as [->|Hin].
  - exists video. split; [by left|].
    destruct (nullish video) eqn:Hn.
    { destruct (grid_cell_null video Hn) as [e He]. congruence. }
    split; [done|]. rewrite grid_cell_record in Hc by done. by injection Hc as <-.
  - destruct (IH Hin) as (v & Hv & Hn & ->). exists v. split; [by right|done].
Qed.


(** The grid shows cards only for results that are a list. *)
Lemma VideoGrid_Cards videos isLoading cells :
  View.VideoGrid videos isLoading = Normal (View.Cards cells) ->
  exists items, videos = VArr items.
Proof.
  unfold View.VideoGrid. destruct (truthy isLoading); [done|].
  destruct videos as [| |b|n|str|items|fields]; simpl;
    try done; try (by destruct (negb _)).
  by eexists.
Qed.

(** X16: opening a video from the grid.  Every card the grid shows is
    the card of one of the results, and a click on it calls
    [selectVideo] with that record: no field other than [selectedVideo]
    changes, and the record becomes the selected video when the title
    that the store logs converts to a string (otherwise the store
    throws before its [set], and the selection stays as it was). *)
Theorem clicking_a_card :
  forall (st : state) (cells : list View.cell) (c : View.cell),
    View.VideoGrid (field st "results") (field st "isLoading")
      = Normal (View.Cards cells) ->
    c ∈ cells ->
    exists (items : list value) (video : value) (st' : state),
      field st "results" = VArr items /\ video ∈ items /\
      c = cell_of video /\ View.selects c = video /\
      App.handle (App.ClickVideo (View.selects c)) st = Some st' /\
      (forall k, k <> "selectedVideo" -> st' !! k = st !! k) /\
      st' !! "selectedVideo"
        = if convertible (VideoStore.title_or_None video)
          then Some video else st !! "selectedVideo".
Proof.
  intros st cells c Hgrid Hin.
  destruct (VideoGrid_Cards _ _ _ Hgrid) as [items Hres]. rewrite Hres in Hgrid.
  destruct (VideoGrid_cells _ _ _ _ Hgrid Hin) as (video & Hv & _ & ->).
  exists items, video. eexists. split; [done|]. split; [done|].
  split; [done|]. split; [done|]. split; [done|]. cbn [View.selects cell_of].
  split; [intros k Hk; by apply selectVideo_changes_only|].
  rewrite selectVideo_eq.
  destruct (convertible (VideoStore.title_or_None video)); [|done].
  by apply set_singleton_only.
Qed.

End properties.

(** * Properties of the aggregation core *)

Lemma prefix_append (s t : string) : String.prefix s (s +:+ t) = true.
Proof.
  induction s as [|c s IH]; simpl; [by destruct t|].
  by destruct (Ascii.ascii_dec c c).
Qed.

(** C7: [suggest] is a total function of the query alone: it gives one
    suggestion per suffix of the fixed list, in the order of that list,
    each being the trimmed query followed by a space and the suffix; the
    result is never empty, for an empty query as for any other. *)
Theorem suggest_appends_suffixes :
  forall query : string,
    length (Core.suggest query) = length Core.suffixes /\
    (forall (i : nat) (suffix : string),
       Core.suffixes !! i = Some suffix ->
       Core.suggest query !! i = Some (trim query +:+ " " +:+ suffix)) /\
    (forall s, s ∈ Core.suggest query -> String.prefix (trim query) s = true) /\
    Core.suggest query <> [] /\
    (query <> "" -> Core.suggest query <> []).
Proof.
  intros query. unfold Core.suggest. split; [by rewrite length_fmap|].
  split; [|split].
  - intros i suffix Hi. by rewrite list_lookup_fmap, Hi.
  - intros s [suffix [-> _]]%list_elem_of_fmap. apply prefix_append.
  - by split.
Qed.

Lemma suggest_appends_suffixes_witness :
  Core.suggest "  cats " = ["cats hd"; "cats compilation"; "cats amateur"] /\
  Core.suggest "  cats " !! 1%nat = Some ("cats" +:+ " " +:+ "compilation") /\
  Core.suggest "cats" <> [].
Proof.
  destruct (suggest_appends_suffixes "  cats ") as (_ & Hi & _).
  destruct (suggest_appends_suffixes "cats") as (_ & _ & _ & _ & Hne).
  split; [reflexivity|]. split; [by apply Hi|]. by apply Hne.
Defined.

Section orchestrator.
Import Core.
Variables (net : network) (cfg : Config).


(** A fetch for a failing source ends without a body, or with one the
    driver cannot read. *)
Lemma fetch_loop_fails (d : Driver) address budget lastError n :
  (forall (i : nat) (content : string),
     (i < budget)%nat ->
     (forall j, (j < i)%nat ->
        exists err, net (n + j)%nat address (per_source_timeout cfg) = Failed err) ->
     net (n + i)%nat address (per_source_timeout cfg) = Body content ->
     exists f, extract d content = Fail f) ->
  match fst (fetch_loop net address budget (per_source_timeout cfg) lastError n) with
  | Ok content => exists f, extract d content = Fail f
  | Fail _ => True
  end.
Proof.
  revert lastError n.
  induction budget as [|budget IH]; intros lastError n Hfails; simpl; [done|].
  destruct (net n address (per_source_timeout cfg)) as [content|err] eqn:Hn.
  - simpl. apply (Hfails 0%nat content); [lia|intros j Hj; lia|].
    by rewrite Nat.add_0_r.
  - apply IH. intros i content Hi Hbefore Hbody.
    apply (Hfails (S i) content); [lia| |by rewrite Nat.add_succ_r].
    intros [|j] Hj.
    + exists err. by rewrite Nat.add_0_r.
    + rewrite Nat.add_succ_r. apply Hbefore. lia.
Qed.

(** A branch whose source fails contributes nothing. *)
Lemma run_source_fails req src n :
  source_fails net cfg req src n ->
  fst (run_source net cfg (driver src) (query req) (page req) n) = None.
Proof.
  intros Hfails. unfold run_source, fetch.
  pose proof (fetch_loop_fails (driver src) _ (attempt_budget cfg)
                "no attempt made" n Hfails) as H.
  destruct (fetch_loop _ _ _ _ _ _) as [[content|f] n']; simpl in *; [|done].
  destruct H as [f ->]. done.
Qed.

(** Conversely, a branch that contributes nothing is one whose source
    fails in that sense. *)
Lemma fetch_loop_fails_inv (d : Driver) address budget lastError n :
  match fst (fetch_loop net address budget (per_source_timeout cfg) lastError n) with
  | Ok content => exists f, extract d content = Fail f
  | Fail _ => True
  end ->
  forall (i : nat) (content : string),
    (i < budget)%nat ->
    (forall j, (j < i)%nat ->
       exists err, net (n + j)%nat address (per_source_timeout cfg) = Failed err) ->
    net (n + i)%nat address (per_source_timeout cfg) = Body content ->
    exists f, extract d content = Fail f.
Proof.
  revert lastError n.
  induction budget as [|budget IH]; intros lastError n Hloop i content Hi Hbefore Hbody;
    [lia|].
  simpl in Hloop.
  destruct (net n address (per_source_timeout cfg)) as [c|err] eqn:Hn.
  - destruct i as [|i].
    + rewrite Nat.add_0_r, Hn in Hbody. by injection Hbody as <-.
    + destruct (Hbefore 0%nat) as [err Herr]; [lia|].
      rewrite Nat.add_0_r, Hn in Herr. discriminate Herr.
  - destruct i as [|i].
    + rewrite Nat.add_0_r, Hn in Hbody. discriminate Hbody.
    + apply (IH err (S n) Hloop i content); [lia| |].
      * intros j Hj. destruct (Hbefore (S j)) as [err' Herr']; [lia|].
        exists err'. by rewrite Nat.add_succ_r in Herr'.
      * by rewrite Nat.add_succ_r in Hbody.
Qed.

Lemma source_fails_iff req src n :
  source_fails net cfg req src n <->
  fst (run_source net cfg (driver src) (query req) (page req) n) = None.
Proof.
  split; [apply run_source_fails|].
  unfold run_source, fetch. intros Hrun. unfold source_fails.
  eapply (fetch_loop_fails_inv (driver src) _ (attempt_budget cfg) "no attempt made" n).
  destruct (fetch_loop _ _ _ _ _ _) as [[content|f] n']; simpl in *; [|done].
  destruct (extract (driver src) content) as [records|f]; [done|by eexists].
Qed.

Lemma fan_out_fails req sources n :
  all_fail net cfg req sources n ->
  fst (fan_out net cfg sources (query req) (page req) n) = [].
Proof.
  revert n. induction sources as [|src rest IH]; intros n; [done|].
  simpl. intros [Hsrc Hrest].
  pose proof (run_source_fails req src n Hsrc) as Hrun.
  destruct (run_source _ _ _ _ _ _) as [contribution n1]. simpl in *. subst.
  specialize (IH n1 Hrest). destruct (fan_out _ _ _ _ _ _) as [others n2]. done.
Qed.

Lemma search_fails_invalid req now st f :
  fst (search net cfg req now st) = Fail f -> f = InvalidRequest /\ valid req = false.
Proof.
  unfold search. destruct (valid req); simpl.
  - destruct (cache_get _ _ _ _) as [[result|] cache']; [done|].
    by destruct (fan_out _ _ _ _ _ _).
  - by intros [= <-].
Qed.

Lemma search_valid req now st :
  valid req = true -> exists result, fst (search net cfg req now st) = Ok result.
Proof.
  intros Hv. unfold search. rewrite Hv. simpl.
  destruct (cache_get _ _ _ _) as [[result|] cache']; [by eexists|].
  destruct (fan_out _ _ _ _ _ _). by eexists.
Qed.


Lemma search_all_fail req now st :
  valid req = true ->
  fst (cache_get (cache_ttl cfg) (search_key (registry st) req) now (cache st)) = None ->
  all_fail net cfg req
    (selected (registry st) (resolve (registry st) (sources req))) (fetches st) ->
  fst (search net cfg req now st)
    = Ok {| results := []; total := 0; result_page := page req;
            sources_searched := [] |}.
Proof.
  intros Hv Hmiss Hfail. unfold search. rewrite Hv. simpl.
  destruct (cache_get _ _ _ _) as [[result|] cache']; [done|].
  pose proof (fan_out_fails req _ _ Hfail) as Hfan.
  destruct (fan_out _ _ _ _ _ _) as [contributed n]. simpl in *.
  rewrite Hfan. by destruct (Z.to_nat (limit req)).
Qed.
End orchestrator.

(** C2: [search] fails with [InvalidRequest] and with nothing else, and
    only on an invalid request; a valid request is always answered with
    a result; and when every selected source fails in the request (none
    of the attempts the request makes for it brings a body from which
    its driver extracts records) and the answer does not come from the
    cache, the result has no records, a total of zero and an empty list
    of searched sources. *)
Theorem search_absorbs_failures :
  forall (net : Core.network) (cfg : Core.Config) (req : Core.SearchRequest)
         (now : Z) (st : Core.State),
    (forall f, fst (Core.search net cfg req now st) = Core.Fail f ->
               f = Core.InvalidRequest /\ Core.valid req = false) /\
    (Core.valid req = true ->
     exists result, fst (Core.search net cfg req now st) = Core.Ok result) /\
    (Core.valid req = true ->
     fst (Core.cache_get (Core.cache_ttl cfg)
            (Core.search_key (Core.registry st) req) now (Core.cache st)) = None ->
     Core.all_fail net cfg req
       (Core.selected (Core.registry st)
          (Core.resolve (Core.registry st) (Core.sources req)))
       (Core.fetches st) ->
     fst (Core.search net cfg req now st)
       = Core.Ok {| Core.results := []; Core.total := 0;
                    Core.result_page := Core.page req;
                    Core.sources_searched := [] |}).
Proof.
  intros. split; [intros f; apply search_fails_invalid|].
  split; [apply search_valid|apply search_all_fail].
Qed.

Section cache.
Import Core.

Lemma find_key key entries e : find key entries = Some e -> entry_key e = key.
Proof.
  induction entries as [|e' entries IH]; simpl; [done|].
  case_bool_decide; [by intros [= <-]|done].
Qed.

Lemma find_first key e entries :
  entry_key e = key -> find key (e :: entries) = Some e.
Proof. intros H. simpl. by rewrite bool_decide_eq_true_2. Qed.

(** A fresh entry at the front is what [get] returns. *)
Lemma cache_get_first ttl key now e entries :
  entry_key e = key -> expired ttl now e = false ->
  fst (cache_get ttl key now (e :: entries)) = Some (entry_result e).
Proof.
  intros Hk He. unfold cache_get. rewrite (find_first _ _ _ Hk), He. done.
Qed.

(** After an answered search, the entry of its key is the most recent
    one, holds the answer and, for a TTL that is not negative, is not
    expired at the time of that search. *)
Lemma search_leaves_entry net cfg req now st result st1 :
  (0 < cache_capacity cfg)%nat ->
  search net cfg req now st = (Ok result, st1) ->
  registry st1 = registry st /\
  exists e rest,
    cache st1 = e :: rest /\ entry_result e = result /\
    entry_key e = search_key (registry st) req /\
    (0 <= cache_ttl cfg -> expired (cache_ttl cfg) now e = false).
Proof.
  intros Hcap. unfold search. destruct (valid req); simpl; [|done].
  unfold cache_get.
  destruct (find _ (cache st)) as [e|] eqn:Hfind.
  - destruct (expired _ now e) eqn:Hexp.
    + destruct (fan_out _ _ _ _ _ _) as [contributed n]. intros [= <- <-]. simpl.
      split; [done|]. destruct (cache_capacity cfg); [lia|]. simpl.
      eexists _, _. repeat split. intros Httl. unfold expired. simpl. lia.
    + intros [= <- <-]. simpl. split; [done|].
      eexists _, _. split; [done|]. split; [done|]. split; [|done].
      by eapply find_key.
  - destruct (fan_out _ _ _ _ _ _) as [contributed n]. intros [= <- <-]. simpl.
    split; [done|]. destruct (cache_capacity cfg); [lia|]. simpl.
    eexists _, _. repeat split. intros Httl. unfold expired. simpl. lia.
Qed.

(** A search whose key has a fresh entry at the front of the cache is
    answered from it, without any fetch. *)
Lemma search_hits net cfg req now st e rest :
  valid req = true ->
  cache st = e :: rest ->
  entry_key e = search_key (registry st) req ->
  expired (cache_ttl cfg) now e = false ->
  exists st2,
    search net cfg req now st = (Ok (entry_result e), st2) /\
    fetches st2 = fetches st.
Proof.
  intros Hvalid Hcache Hk Hfresh. unfold search. rewrite Hvalid. simpl.
  unfold cache_get. rewrite Hcache, (find_first _ _ _ Hk), Hfresh.
  by eexists.
Qed.

(** In particular for the same request repeated at the same instant. *)
Lemma search_twice_at_once net cfg req now st result st1 :
  (0 < cache_capacity cfg)%nat -> 0 <= cache_ttl cfg ->
  search net cfg req now st = (Ok result, st1) ->
  exists st2,
    search net cfg req now st1 = (Ok result, st2) /\ fetches st2 = fetches st1.
Proof.
  intros Hcap Httl Hfirst.
  assert (valid req = true) as Hvalid.
  { unfold search in Hfirst. by destruct (valid req). }
  destruct (search_leaves_entry _ _ _ _ _ _ _ Hcap Hfirst)
    as (Hreg & e & rest & Hcache & <- & Hk & Hfresh).
  apply (search_hits _ _ _ _ _ e rest); rewrite ?Hreg; auto.
Qed.
End cache.

(** C6: after a search that was answered, a second search with the same
    normalized key (the same request, or another spelling of it), made
    before the entry of that key expires and with a cache that holds at
    least one entry, is answered with the same result, and the fetch
    client makes no attempt. *)
Theorem cache_idempotence :
  forall (net : Core.network) (cfg : Core.Config)
         (req1 req2 : Core.SearchRequest) (now1 now2 : Z)
         (st st1 : Core.State) (result : Core.SearchResult),
    (0 < Core.cache_capacity cfg)%nat ->
    Core.valid req2 = true ->
    Core.search_key (Core.registry st) req2 = Core.search_key (Core.registry st) req1 ->
    Core.search net cfg req1 now1 st = (Core.Ok result, st1) ->
    (forall e, Core.find (Core.search_key (Core.registry st) req1) (Core.cache st1) = Some e ->
               Core.expired (Core.cache_ttl cfg) now2 e = false) ->
    exists st2,
      Core.search net cfg req2 now2 st1 = (Core.Ok result, st2) /\
      Core.fetches st2 = Core.fetches st1.
Proof.
  intros net cfg req1 req2 now1 now2 st st1 result Hcap Hvalid Hkey Hfirst Hfresh.
  destruct (search_leaves_entry _ _ _ _ _ _ _ Hcap Hfirst)
    as (Hreg & e & rest & Hcache & <- & Hk & _).
  apply (search_hits _ _ _ _ _ e rest); rewrite ?Hreg, ?Hkey; auto.
  apply Hfresh. rewrite Hcache. by apply find_first.
Qed.

(** The examples of the design document. *)
Example end_to_end :
  match fst (Core.search Fixture.up Fixture.config Fixture.request 0 Fixture.fresh) with
  | Core.Ok r =>
      Core.total r = 6 /\ length (Core.results r) = 5%nat /\
      Core.sources_searched r = ["xvideos"; "pornhub"] /\
      Core.source <$> Core.results r
        = ["xvideos"; "xvideos"; "xvideos"; "pornhub"; "pornhub"]
  | Core.Fail _ => False
  end.
Proof. vm_compute. by repeat split. Qed.

Example partial_failure :
  match fst (Core.search Fixture.partial Fixture.config Fixture.request 0 Fixture.fresh) with
  | Core.Ok r =>
      Core.sources_searched r = ["xvideos"] /\
      Core.source <$> Core.results r = ["xvideos"; "xvideos"; "xvideos"]
  | Core.Fail _ => False
  end.
Proof. vm_compute. by repeat split. Qed.

Example retry_budget :
  Core.fetch Fixture.flaky "a" 3 10 0 = (Core.Ok "a", 3%nat) /\
  Core.fetch Fixture.down "a" 3 10 0 = (Core.Fail (Core.FetchFailed "timeout"), 3%nat).
Proof. by split. Qed.


(** A network on which a source fails in one request and answers in a
    later one: the first three attempts fail. *)
Example fails_now_answers_later :
  let net : Core.network :=
    fun n address _ => if (n <? 3)%nat then Core.Failed "reset" else Core.Body address in
  let st := {| Core.registry := [Fixture.source_of "xvideos"];
               Core.cache := []; Core.fetches := 0 |} in
  Core.all_fail net Fixture.config Fixture.request (Core.registry st) 0 /\
  fst (Core.search net Fixture.config Fixture.request 0 st)
    = Core.Ok {| Core.results := []; Core.total := 0; Core.result_page := 1;
                 Core.sources_searched := [] |} /\
  ~ Core.all_fail net Fixture.config Fixture.request (Core.registry st) 3.
Proof.
  intros net st. split; [|split].
  - split; [|done]. intros i content Hi _. simpl in Hi. unfold net.
    destruct (Nat.ltb_spec (0 + i) 3); [done|lia].
  - reflexivity.
  - intros [Hf _]. destruct (Hf 0%nat "https://xvideos/?q=test") as [f Hx].
    + simpl. lia.
    + intros j Hj. lia.
    + reflexivity.
    + discriminate Hx.
Qed.

(** A witness: every source is down, the cache is empty. *)
Lemma search_absorbs_failures_witness :
  fst (Core.search Fixture.down Fixture.config Fixture.request 0 Fixture.fresh)
    = Core.Ok {| Core.results := []; Core.total := 0; Core.result_page := 1;
                 Core.sources_searched := [] |}.
Proof.
  destruct (search_absorbs_failures Fixture.down Fixture.config Fixture.request
              0 Fixture.fresh) as (_ & _ & H).
  apply H; [reflexivity|reflexivity|].
  repeat split; intros i content _ _ Hbody; discriminate Hbody.
Defined.

(** A witness: the same request twice, 100 time units apart. *)
Lemma cache_idempotence_witness :
  exists result st1 st2,
    Core.search Fixture.up Fixture.config Fixture.request 0 Fixture.fresh
      = (Core.Ok result, st1) /\
    Core.search Fixture.up Fixture.config Fixture.request 100 st1
      = (Core.Ok result, st2) /\
    Core.fetches st1 = 2%nat /\ Core.fetches st2 = 2%nat.
Proof.
  destruct (Core.search Fixture.up Fixture.config Fixture.request 0 Fixture.fresh)
    as [[result|f] st1] eqn:Hfirst; [|vm_compute in Hfirst; discriminate Hfirst].
  assert (Hn : Core.fetches st1 = 2%nat)
    by (vm_compute in Hfirst; by injection Hfirst as <- <-).
  destruct (cache_idempotence Fixture.up Fixture.config Fixture.request
              Fixture.request 0 100 Fixture.fresh st1 result) as (st2 & H2 & Hf).
  - simpl. lia.
  - reflexivity.
  - reflexivity.
  - exact Hfirst.
  - intros e He. vm_compute in Hfirst. injection Hfirst as <- <-.
    vm_compute in He. injection He as <-. reflexivity.
  - exists result, st1, st2. rewrite Hf. by repeat split.
Defined.

(** * Examples

    The examples run on one engine. *)

#[local] Existing Instance JS.V8.

(** ** The store *)

(** A value without a conversion to a string: an object with a property
    of its own called [toString]. *)
Example unconvertible :
  let v := VObj [("toString", VNum 1)] in
  convertible v = false /\ convertible (VArr [VStr "a"; v]) = false /\
  convertible (VObj [("title", VStr "t")]) = true /\
  convertible (VArr [VUndefined; VNull; VNum 1]) = true.
Proof. by repeat split. Qed.

(** C1, as stated, fails: a query that is [undefined] is left out of
    the body that is sent, which has three fields; and for a query
    without a conversion to a string the store module throws in its
    first log and sends nothing. *)
Lemma searchVideos_undefined_query :
  let rq := {| verb := POST; path := "/api/search";
               body := Some (VObj [("query", VUndefined);
                                   ("sources", VArr [VStr "all"]);
                                   ("page", VNum 1); ("limit", VNum 40)]) |} in
  App.Store.issues (SearchVideos VUndefined VUndefined) App.Store.initial = Some rq /\
  VideoStore.issues (SearchVideos VUndefined VUndefined) VideoStore.initial = Some rq /\
  body (on_the_wire rq)
    = Some (VObj [("sources", VArr [VStr "all"]); ("page", VNum 1);
                  ("limit", VNum 40)]) /\
  (forall query sources, ~ search_request query sources (on_the_wire rq)) /\
  VideoStore.issues (SearchVideos (VObj [("toString", VNum 1)]) VUndefined)
    VideoStore.initial = None.
Proof.
  intros rq. split; [reflexivity|]. split; [reflexivity|]. split; [reflexivity|].
  split; [|reflexivity].
  intros query sources (_ & _ & fields & page & limit & Hbody & Hnames & _).
  injection Hbody as <-. discriminate Hnames.
Qed.

(** A witness: the request of a search for a text. *)
Lemma searchVideos_request_body_witness :
  exists rq,
    VideoStore.issues (SearchVideos (VStr "cats") VUndefined) VideoStore.initial
      = Some rq /\
    fields_sent rq = Some ["query"; "sources"; "page"; "limit"] /\
    query_of (on_the_wire rq) = VStr "cats".
Proof.
  destruct (searchVideos_request_body (VStr "cats") VUndefined VideoStore.initial)
    as (rq & Hcopy & Hmodule & _ & Hwire & _).
  exists rq. split; [exact Hmodule|].
  injection Hcopy as <-. by split.
Defined.

(** C9, as stated, fails: a request that succeeds with a body that is
    [null] leaves an error that is not [null], in the copy in [App.js]
    and in the store module; an error set while the request is pending
    is still there after it has succeeded; and in the store module,
    after a request rejected with a [detail] that has no conversion to a
    string, [isLoading] is still true and [error] is still [null]. *)
Lemma searchVideos_null_body :
  let r := {| data := VNull; status := 200 |} in
  let ok := {| data := VObj [("results", VArr [])]; status := 200 |} in
  let e := {| message := "Request failed with status code 422";
              response := Some {| data := VObj [("detail", VObj [("toString", VNum 1)])];
                                  status := 422 |} |} in
  field (App.Store.searchVideos (VStr "cats") VUndefined (Fulfilled r)
           App.Store.initial) "error" = VStr "Search failed" /\
  field (VideoStore.searchVideos (VStr "cats") VUndefined (Fulfilled r)
           VideoStore.initial) "error" <> VNull /\
  field (App.Store.searchVideos_settle (Fulfilled ok)
           (App.Store.setError (VStr "boom")
              (fst (App.Store.searchVideos_begin (VStr "cats") VUndefined
                      App.Store.initial)))) "error" = VStr "boom" /\
  field (VideoStore.searchVideos (VStr "cats") VUndefined (Rejected e)
           VideoStore.initial) "isLoading" = VBool true /\
  field (VideoStore.searchVideos (VStr "cats") VUndefined (Rejected e)
           VideoStore.initial) "error" = VNull.
Proof. intros r ok e. by repeat split. Qed.

(** A witness: a response with two results. *)
Lemma searchVideos_completion_witness :
  let r := {| data := VObj [("results", VArr [VStr "a"; VStr "b"])]; status := 200 |} in
  let st := after (VideoStore.searchVideos_settle (VStr "q") (Fulfilled r))
              VideoStore.initial in
  field st "results" = VArr [VStr "a"; VStr "b"] /\
  field st "isLoading" = VBool false.
Proof.
  intros r st.
  destruct (searchVideos_completion (VStr "q") VUndefined (Fulfilled r)
              VideoStore.initial) as (_ & _ & _ & _ & _ & Hmodule).
  destruct (Hmodule eq_refl) as (_ & _ & Hfulfilled).
  destruct (Hfulfilled r eq_refl) as [Hloading Hresults].
  change (results_arrive (Fulfilled r)) with true in Hresults. cbv iota in Hresults.
  destruct Hresults as (_ & _ & _ & Hitems).
  split; [by apply Hitems|exact Hloading].
Defined.

(** A response whose results have a length without a conversion: the
    store module reports a failure, the copy stores the results. *)
Example length_without_conversion :
  let results := VObj [("length", VObj [("toString", VNum 1)])] in
  let r := {| data := VObj [("results", results)]; status := 200 |} in
  let st1 := VideoStore.searchVideos (VStr "cats") VUndefined (Fulfilled r)
               VideoStore.initial in
  let st2 := App.Store.searchVideos (VStr "cats") VUndefined (Fulfilled r)
               App.Store.initial in
  field st1 "error" = VStr "Cannot convert object to primitive value" /\
  field st1 "results" = VArr [] /\
  field st2 "error" = VNull /\ field st2 "results" = results.
Proof. intros results r st1 st2. by repeat split. Qed.

(** A witness of the frame property: clearing the initial state leaves
    the selection and the list of sources, and selecting a video
    leaves the results. *)
Lemma clearResults_selectVideo_frame_witness :
  VideoStore.clearResults VideoStore.initial !! "selectedSources"
    = Some (VArr [VStr "all"]) /\
  after (VideoStore.selectVideo (VObj [("title", VStr "first")])) VideoStore.initial
    !! "results" = Some (VArr []) /\
  after (VideoStore.selectVideo (VObj [("title", VStr "first")])) VideoStore.initial
    !! "selectedVideo" = Some (VObj [("title", VStr "first")]).
Proof.
  destruct clearResults_selectVideo_frame as (Hc & _ & Hframe & Hsel). split.
  - destruct (Hc VideoStore.initial) as (_ & _ & _ & _ & _ & _ & Hk).
    rewrite Hk; [reflexivity|]. by apply (bool_decide_unpack _).
  - destruct (Hframe (VObj [("title", VStr "first")])) as [Hk _].
    split; [rewrite Hk; [reflexivity|by intros [=]]|].
    by destruct (Hsel (VObj [("title", VStr "first")]) VideoStore.initial) as [_ ->].
Defined.

(** A video whose title has no conversion is not selected by the store
    module. *)
Example selectVideo_title_without_conversion :
  let video := VObj [("title", VObj [("toString", VNum 1)])] in
  after (VideoStore.selectVideo video) VideoStore.initial = VideoStore.initial /\
  field (App.Store.selectVideo video App.Store.initial) "selectedVideo" = video.
Proof. intros video. by split. Qed.


(** ** The search bar *)


Example selecting_two_sources :
  let a := VObj [("name", VStr "pornhub"); ("enabled", VBool true)] in
  let b := VObj [("name", VStr "xvideos"); ("enabled", VBool true)] in
  let r := {| data := VObj [("sources", VArr [a; b])]; status := 200 |} in
  (fun st => field st "selectedSources") <$>
    App.run [App.Mount; App.SourcesSettled (Fulfilled r);
             App.ClickSource "pornhub"; App.ClickSource "xvideos"]
            VideoStore.initial
  = Some (VArr [VStr "pornhub"; VStr "xvideos"]).
Proof. reflexivity. Qed.

Example deselecting_the_last_source :
  let a := VObj [("name", VStr "pornhub"); ("enabled", VBool true)] in
  let r := {| data := VObj [("sources", VArr [a])]; status := 200 |} in
  (fun st => field st "selectedSources") <$>
    App.run [App.Mount; App.SourcesSettled (Fulfilled r);
             App.ClickSource "pornhub"; App.ClickSource "pornhub"]
            VideoStore.initial
  = Some (VArr [VStr "all"]).
Proof. reflexivity. Qed.

(** Why clicks on a source called "all" are left out: after another
    source is selected, such a click adds the sentinel to the list. *)
Example a_source_called_all :
  let a := VObj [("name", VStr "pornhub"); ("enabled", VBool true)] in
  let b := VObj [("name", VStr "all"); ("enabled", VBool true)] in
  let r := {| data := VObj [("sources", VArr [a; b])]; status := 200 |} in
  (fun st => field st "selectedSources") <$>
    App.run [App.Mount; App.SourcesSettled (Fulfilled r);
             App.ClickSource "pornhub"; App.ClickSource "all"]
            VideoStore.initial
  = Some (VArr [VStr "pornhub"; VStr "all"]).
Proof. reflexivity. Qed.

(** C4, as stated, fails: the text is tested trimmed but passed on as
    typed, so a query with a leading space reaches the request. *)
Lemma handleSubmit_passes_untrimmed :
  query_of <$> snd (App.handleSubmit " cats" VideoStore.initial)
    = Some (VStr " cats") /\
  ~ trimmed_nonempty " cats".
Proof.
  split; [reflexivity|]. intros [_ Htrim]. discriminate Htrim.
Qed.

(** A witness: a query typed without white space around it. *)
Lemma handleSubmit_query_witness :
  query_of <$> snd (App.handleSubmit "cats" VideoStore.initial)
    = Some (VStr "cats") /\
  trimmed_nonempty "cats".
Proof.
  destruct (handleSubmit_query "cats" VideoStore.initial) as (Hrq & _ & Hsome).
  destruct Hsome as [rq Hsnd]; [discriminate|].
  destruct (Hrq rq Hsnd) as (Hq & _ & _ & Htrim).
  rewrite Hsnd. simpl. rewrite Hq. split; [reflexivity|].
  apply Htrim. reflexivity.
Defined.

(** ** The two copies of the store *)

(** C8, as stated, fails: for a request that fails without an answer of
    the server, the store module reports the message of the error and
    the copy in [App.js] reports ["Search failed"]. *)
Lemma stores_differ_on_network_error :
  let e := {| message := "Network Error"; response := None |} in
  agree VideoStore.initial App.Store.initial /\
  ~ agree (VideoStore.searchVideos (VStr "cats") (VArr [VStr "all"])
             (Rejected e) VideoStore.initial)
          (App.Store.searchVideos (VStr "cats") (VArr [VStr "all"])
             (Rejected e) App.Store.initial).
Proof.
  intros e. split; [apply initial_agree|].
  intros H. specialize (H "error").
  assert (Some (VStr "Network Error") = Some (VStr "Search failed")) as [=].
  apply H.
  - by apply (bool_decide_unpack _).
  - apply not_elem_of_nil.
Qed.

(** The two stores also part on a value that has no conversion to a
    string: the store module throws in its log and stores nothing. *)
Example stores_differ_on_a_log :
  let v := VObj [("toString", VNum 1)] in
  VideoStore.step (SetError v) VideoStore.initial = VideoStore.initial /\
  field (App.Store.step (SetError v) App.Store.initial) "error" = v /\
  VideoStore.issues (SearchVideos v VUndefined) VideoStore.initial = None /\
  App.Store.issues (SearchVideos v VUndefined) App.Store.initial <> None.
Proof. intros v. by repeat split. Qed.

(** A witness: after a search that the server rejects with a [detail],
    the two stores show the same error. *)
Lemma stores_agree_witness :
  let e := {| message := "Request failed with status code 422";
              response := Some {| data := VObj [("detail", VStr "Empty query")];
                                  status := 422 |} |} in
  let a := SearchVideosSettled (VStr "cats") (Rejected e) in
  agree (VideoStore.step a VideoStore.initial) (App.Store.step a App.Store.initial) /\
  field (VideoStore.step a VideoStore.initial) "error" = VStr "Empty query".
Proof.
  intros e a. destruct stores_agree as (Hinit & _ & Hstep & _).
  split; [|reflexivity]. apply Hstep; [reflexivity|reflexivity|exact Hinit].
Defined.

(** ** The rest of the store *)

Lemma setters_frame_witness :
  after (VideoStore.setError (VStr "boom")) VideoStore.initial !! "error"
    = Some (VStr "boom") /\
  after (VideoStore.setError (VObj [("toString", VNum 1)])) VideoStore.initial
    = VideoStore.initial.
Proof.
  destruct setters_frame as (_ & _ & _ & _ & _ & Hmodule).
  destruct (Hmodule (VStr "boom") VideoStore.initial) as (_ & He & _).
  destruct (Hmodule (VObj [("toString", VNum 1)]) VideoStore.initial) as (_ & He' & _).
  split; [by rewrite He|exact He'].
Defined.

Lemma searchVideos_frame_witness :
  let e := {| message := "Network Error"; response := None |} in
  let st := set {[ "selectedVideo" := VStr "v" ]} VideoStore.initial in
  VideoStore.searchVideos (VStr "cats") VUndefined (Rejected e) st
    !! "selectedVideo" = Some (VStr "v") /\
  VideoStore.searchVideos (VStr "cats") VUndefined (Rejected e) st
    !! "searchQuery" = Some (VStr "cats").
Proof.
  intros e st.
  destruct (searchVideos_frame (VStr "cats") VUndefined (Rejected e) st)
    as (Hk & _ & Hq & _).
  split; [|exact Hq].
  destruct (Hk "selectedVideo") as [-> _]; [|reflexivity].
  by apply (bool_decide_unpack _).
Defined.


Lemma searchVideos_error_message_witness :
  let r := {| data := VNull; status := 200 |} in
  field (after (VideoStore.searchVideos_settle (VStr "cats") (Fulfilled r))
           VideoStore.initial) "error"
    = VStr "Cannot read properties of null (reading 'results')".
Proof.
  intros r.
  destruct (searchVideos_error_message (VStr "cats") VideoStore.initial eq_refl)
    as (_ & Hnull & _).
  destruct (Hnull r eq_refl) as (-> & _). reflexivity.
Defined.

Lemma overlapping_searches_witness :
  let r1 := {| data := VObj [("results", VArr [VStr "cat video"])]; status := 200 |} in
  let e2 := {| message := "Network Error"; response := None |} in
  let both :=
    after (VideoStore.searchVideos_begin (VStr "dogs") VUndefined)
      (after (VideoStore.searchVideos_begin (VStr "cats") VUndefined)
         VideoStore.initial) in
  let st' :=
    after (VideoStore.searchVideos_settle (VStr "cats") (Fulfilled r1))
      (after (VideoStore.searchVideos_settle (VStr "dogs") (Rejected e2)) both) in
  field st' "searchQuery" = VStr "dogs" /\
  field st' "results" = VArr [VStr "cat video"] /\
  field st' "error" = VStr "Network Error".
Proof.
  intros r1 e2 both st'.
  destruct (overlapping_searches (VStr "cats") VUndefined (VStr "dogs") VUndefined
              (Fulfilled r1) (Rejected e2) VideoStore.initial
              eq_refl eq_refl eq_refl eq_refl)
    as (Hq & Hr & _ & _ & He).
  split; [exact Hq|]. split; [etrans; [exact Hr|reflexivity]|].
  etrans; [exact (He eq_refl)|reflexivity].
Defined.

Lemma select_video_then_back_witness :
  App.run [App.ClickVideo (VObj [("id", VStr "1")]); App.ClickBack] VideoStore.initial
    = Some VideoStore.initial.
Proof.
  apply (select_video_then_back (VObj [("id", VStr "1")]) VideoStore.initial).
  reflexivity.
Defined.

Lemma clear_while_loading_witness :
  let r := {| data := VObj [("results", VArr [VStr "a"])]; status := 200 |} in
  let cleared :=
    VideoStore.clearResults
      (after (VideoStore.searchVideos_begin (VStr "cats") VUndefined)
         VideoStore.initial) in
  let st' := after (VideoStore.searchVideos_settle (VStr "cats") (Fulfilled r)) cleared in
  field cleared "isLoading" = VBool true /\
  field st' "searchQuery" = VStr "" /\
  field st' "results" = VArr [VStr "a"].
Proof.
  intros r cleared st'.
  destruct (clear_while_loading (VStr "cats") VUndefined (Fulfilled r)
              VideoStore.initial eq_refl eq_refl) as (Hl & _ & _ & Hq & Hr).
  split; [exact Hl|]. split; [exact Hq|]. etrans; [exact Hr|reflexivity].
Defined.

(** ** The rest of the search bar *)

Lemma source_onClick_toggles_witness :
  let st := VideoStore.setSelectedSources
              (VArr [VStr "xvideos"; VStr "pornhub"; VStr "redtube"])
              VideoStore.initial in
  exists st',
    App.source_onClick "pornhub" st = Some st' /\
    field st' "selectedSources" = VArr [VStr "xvideos"; VStr "redtube"].
Proof.
  intros st. destruct (source_onClick_toggles "pornhub" st) as [H _].
  destruct (H ["xvideos"; "pornhub"; "redtube"]) as (st' & Hc & _ & Hf).
  - reflexivity.
  - by apply (bool_decide_unpack _).
  - exists st'. split; [exact Hc|exact Hf].
Defined.

Lemma source_onClick_twice_witness :
  exists st1,
    App.source_onClick "xvideos" VideoStore.initial = Some st1 /\
    App.source_onClick "xvideos" st1 = Some VideoStore.initial.
Proof.
  apply source_onClick_twice; [apply initial_selection|by intros [=]|reflexivity].
Defined.

Lemma selectedSources_distinct_witness :
  let a := VObj [("name", VStr "pornhub"); ("enabled", VBool true)] in
  let r := {| data := VObj [("sources", VArr [a])]; status := 200 |} in
  let events :=
    [App.Mount; App.SourcesSettled (Fulfilled r);
     App.ClickSource "pornhub"; App.ClickSource "pornhub"; App.ClickSource "pornhub"] in
  exists st, App.run events VideoStore.initial = Some st /\ selection_distinct st.
Proof.
  intros a r events. apply (selectedSources_distinct events).
  subst events. repeat (apply not_elem_of_cons; split; [by intros [=]|]).
  apply not_elem_of_nil.
Defined.

Lemma page_search_requests_witness :
  let st := VideoStore.initial in
  let rq := snd (App.Store.searchVideos_begin (VStr "cats") (VArr [VStr "all"]) st) in
  search_request (VStr "cats") (VArr [VStr "all"]) rq /\ trim "cats" <> "".
Proof.
  intros st rq.
  destruct (page_search_requests [] "cats" st rq) as (H & _ & Ht).
  - apply not_elem_of_nil.
  - reflexivity.
  - reflexivity.
  - split; [exact H|exact Ht].
Defined.

Lemma submit_button_witness :
  exists rq, snd (App.handleSubmit "cats" VideoStore.initial) = Some rq.
Proof.
  destruct (submit_button "cats" VideoStore.initial) as (H & _).
  apply H. reflexivity.
Defined.

Lemma highlighted_buttons_witness :
  View.allSources_active VideoStore.initial = Some true /\
  View.source_active "xvideos" VideoStore.initial = Some false.
Proof.
  destruct (highlighted_buttons VideoStore.initial initial_selection)
    as (b & Hb & Hiff & Hsrc).
  destruct (Hsrc "xvideos") as (b' & Hb' & _).
  split; reflexivity.
Defined.

(** ** What the page shows *)

Lemma footer_lists_the_buttons_witness :
  let a := VObj [("name", VStr "pornhub"); ("enabled", VBool true);
                 ("driver_name", VStr "Pornhub")] in
  let b := VObj [("name", VStr "xvideos"); ("enabled", VBool false)] in
  View.footer_names (VArr [a; b]) = Normal [VStr "Pornhub"; VStr "xvideos"] /\
  View.length_of (VArr [a; b]) = Normal (VNum 2).
Proof.
  intros a b.
  destruct (footer_lists_the_buttons (VArr [a; b]) [button_of a; button_of b] eq_refl)
    as [Hn Hf].
  split; [exact Hf|exact Hn].
Defined.



Lemma clicking_a_card_witness :
  let v := VObj [("id", VStr "1"); ("title", VStr "first");
                 ("url", VStr "https://example.org/1")] in
  let st := set {[ "results" := VArr [v] ]} VideoStore.initial in
  exists st',
    App.handle (App.ClickVideo v) st = Some st' /\
    st' !! "selectedVideo" = Some v.
Proof.
  intros v st.
  destruct (clicking_a_card st [cell_of v] (cell_of v))
    as (items & video & st' & _ & _ & _ & Hsel & Hh & _ & Hv).
  - reflexivity.
  - by apply list_elem_of_singleton.
  - change (v = video) in Hsel. subst video.
    exists st'. split; [exact Hh|exact Hv].
Defined.
